(** * hashub-vector-js: the retrying request executor and the error classifier

    A shallow embedding of [src/client.ts] (class [HashubVector]) and
    [src/errors.ts] (the error classes), with the parts of JavaScript and of
    the HTTP transport (axios) that these two files rely on. *)

From Stdlib Require Import ZArith Lia Ascii String List DecimalString DecimalPos.
From stdpp Require Import base option strings gmap.

Local Open Scope Z_scope.
Local Set Warnings "-register-all".

(** ** JavaScript values *)

(** A JavaScript number: [Num z] is the number [𝔽(z)] of a mathematical
    integer [z]. The client does arithmetic on integers only (statuses,
    attempts, delays, what [parseInt] reads); any other number, such as a
    chunk overlap of 0.1, is only handed on, tested for truth or printed, and
    is named by the text that Number::toString prints for it. *)
Inductive number :=
| NaN
| NegZero
| Num (z : Z)
| Fractional (text : string).

(** Values of type [any]: what a decoded JSON body can hold, and
    [undefined]. An object is its list of own properties, looked up from the
    front. *)
Inductive jsval :=
| JUndefined
| JNull
| JBool (b : bool)
| JNum (n : number)
| JStr (s : string)
| JArr (items : list jsval)
| JObj (props : list (string * jsval)).

Fixpoint own_property (props : list (string * jsval)) (key : string) : option jsval :=
  match props with
  | [] => None
  | (k, v) :: rest => if String.eqb k key then Some v else own_property rest key
  end.

(** [v.key] for a [v] that is neither [undefined] nor [null]. Only an object
    has own properties here; the names the client reads ([message], [error],
    [model], ...) are not defined on a string, a number, a boolean or an array,
    nor inherited from [Object.prototype], so they read as [undefined]. *)
Definition get (v : jsval) (key : string) : jsval :=
  match v with
  | JObj props => default JUndefined (own_property props key)
  | _ => JUndefined
  end.

(** [v?.key] *)
Definition get_optional (v : jsval) (key : string) : jsval :=
  match v with
  | JUndefined | JNull => JUndefined
  | _ => get v key
  end.

Definition number_truthy (n : number) : bool :=
  match n with
  | NaN | NegZero => false
  | Num z => negb (z =? 0)
  | Fractional _ => true
  end.

Definition string_truthy (s : string) : bool :=
  match s with
  | EmptyString => false
  | String _ _ => true
  end.

(** ToBoolean *)
Definition truthy (v : jsval) : bool :=
  match v with
  | JUndefined | JNull => false
  | JBool b => b
  | JNum n => number_truthy n
  | JStr s => string_truthy s
  | JArr _ | JObj _ => true
  end.

(** [a || b] *)
Definition js_or (a b : jsval) : jsval := if truthy a then a else b.

Definition decimal (z : Z) : string := NilZero.string_of_int (Z.to_int z).

(** Number::toString, radix 10. An integer prints in decimal notation (up
    to a magnitude of 10^21, where the exponent notation starts). *)
Definition number_to_string (n : number) : string :=
  match n with
  | NaN => "NaN"
  | NegZero => "0"
  | Num z => decimal z
  | Fractional text => text
  end.

Definition has_own (props : list (string * jsval)) (key : string) : bool :=
  match own_property props key with
  | Some _ => true
  | None => false
  end.

(** ToString. [None] is the TypeError of OrdinaryToPrimitive: an object whose
    own [toString] property shadows [Object.prototype.toString] with a value
    that is not callable (no decoded JSON value is) is left with
    [Object.prototype.valueOf], which returns the object itself, not a
    primitive. An array is joined with commas by [Array.prototype.toString],
    [undefined] and [null] elements printing as the empty string. *)
Fixpoint ToString (v : jsval) : option string :=
  match v with
  | JUndefined => Some "undefined"
  | JNull => Some "null"
  | JBool true => Some "true"
  | JBool false => Some "false"
  | JNum n => Some (number_to_string n)
  | JStr s => Some s
  | JArr items =>
      let element (x : jsval) : option string :=
        match x with
        | JUndefined | JNull => Some EmptyString
        | _ => ToString x
        end in
      (fix join (l : list jsval) : option string :=
         match l with
         | [] => Some EmptyString
         | [x] => element x
         | x :: rest =>
             match element x, join rest with
             | Some s, Some t => Some (s +:+ "," +:+ t)
             | _, _ => None
             end
         end) items
  | JObj props =>
      if has_own props "toString" then None else Some "[object Object]"
  end.

(** *** [parseInt(string)], no radix argument *)

(** WhiteSpace and LineTerminator code units below 256: TAB, LF, VT, FF, CR,
    SP, NBSP. A header value is a string of such code units. *)
Definition is_white_space (c : ascii) : bool :=
  let n := Z.of_N (N_of_ascii c) in
  ((9 <=? n) && (n <=? 13)) || (n =? 32) || (n =? 160).

Fixpoint trim_start (s : string) : string :=
  match s with
  | String c rest => if is_white_space c then trim_start rest else s
  | EmptyString => s
  end.

Definition digit_value (c : ascii) : option Z :=
  let n := Z.of_N (N_of_ascii c) in
  if (48 <=? n) && (n <=? 57) then Some (n - 48)
  else if (97 <=? n) && (n <=? 122) then Some (n - 87)
  else if (65 <=? n) && (n <=? 90) then Some (n - 55)
  else None.

Definition radix_digit (R : Z) (c : ascii) : option Z :=
  match digit_value c with
  | Some d => if d <? R then Some d else None
  | None => None
  end.

(** The value of the longest prefix of radix-[R] digits, [acc] being the
    value of the digits read so far ([None]: none yet). *)
Fixpoint parse_digits (R : Z) (s : string) (acc : option Z) : option Z :=
  match s with
  | String c rest =>
      match radix_digit R c with
      | Some d => parse_digits R rest (Some (default 0 acc * R + d))
      | None => acc
      end
  | EmptyString => acc
  end.

Definition parseInt (input : string) : number :=
  let trimmed := trim_start input in
  let '(sign, unsigned) :=
    match trimmed with
    | String "-"%char rest => (-1, rest)
    | String "+"%char rest => (1, rest)
    | _ => (1, trimmed)
    end in
  let '(R, digits) :=
    match unsigned with
    | String "0"%char (String "x"%char rest)
    | String "0"%char (String "X"%char rest) => (16, rest)
    | _ => (10, unsigned)
    end in
  match parse_digits R digits None with
  | None => NaN
  | Some 0 => if sign =? -1 then NegZero else Num 0
  | Some mathInt => Num (sign * mathInt)
  end.

(** ** The error classes ([src/errors.ts]) *)

(** An instance of [HashubVectorError] or of one of its subclasses; [name]
    tells the class. [retryAfter] is the extra property of [RateLimitError]
    and is [undefined] ([None]) on every other instance. *)
Record HashubVectorError := {
  name : string;
  message : string;
  code : option string;
  status : option Z;
  details : jsval;
  retryAfter : option number
}.

(** A parameter with a default value: the default applies to [undefined]. *)
Definition default_parameter (argument : jsval) (value : string) : jsval :=
  match argument with
  | JUndefined => JStr value
  | _ => argument
  end.

(** [super(message)] of the built-in [Error]: the message is converted with
    ToString unless it is [undefined]. [None]: the conversion throws. *)
Definition Error_message (message : jsval) : option string :=
  match message with
  | JUndefined => Some EmptyString
  | _ => ToString message
  end.

Definition set_name (n : string) (e : HashubVectorError) : HashubVectorError :=
  {| name := n; message := message e; code := code e; status := status e;
     details := details e; retryAfter := retryAfter e |}.

Definition set_retryAfter (r : option number) (e : HashubVectorError) : HashubVectorError :=
  {| name := name e; message := message e; code := code e; status := status e;
     details := details e; retryAfter := r |}.

(** [new C(...)]: the instance, or [None] when the constructor throws. *)
Definition new_HashubVectorError (message : jsval) (code : option string)
    (status : option Z) (details : jsval) : option HashubVectorError :=
  text ← Error_message message;
  Some {| name := "HashubVectorError"; message := text; code := code;
          status := status; details := details; retryAfter := None |}.

Definition new_AuthenticationError (message : jsval) : option HashubVectorError :=
  set_name "AuthenticationError" <$>
    new_HashubVectorError
      (default_parameter message "Invalid API key or authentication failed")
      (Some "AUTHENTICATION_ERROR") (Some 401) JUndefined.

Definition new_RateLimitError (message : jsval) (retryAfter : option number)
    : option HashubVectorError :=
  set_retryAfter retryAfter <$> (set_name "RateLimitError" <$>
    new_HashubVectorError (default_parameter message "Rate limit exceeded")
      (Some "RATE_LIMIT_ERROR") (Some 429) JUndefined).

Definition new_QuotaExceededError (message : jsval) : option HashubVectorError :=
  set_name "QuotaExceededError" <$>
    new_HashubVectorError (default_parameter message "Token quota exceeded")
      (Some "QUOTA_EXCEEDED_ERROR") (Some 402) JUndefined.

Definition new_ValidationError (message : jsval) : option HashubVectorError :=
  set_name "ValidationError" <$>
    new_HashubVectorError (default_parameter message "Request validation failed")
      (Some "VALIDATION_ERROR") (Some 400) JUndefined.

Definition new_ServerError (message : jsval) : option HashubVectorError :=
  set_name "ServerError" <$>
    new_HashubVectorError (default_parameter message "Internal server error")
      (Some "SERVER_ERROR") (Some 500) JUndefined.

Definition new_NetworkError (message : jsval) : option HashubVectorError :=
  set_name "NetworkError" <$>
    new_HashubVectorError (default_parameter message "Network connection error")
      (Some "NETWORK_ERROR") None JUndefined.

Definition new_TimeoutError (message : jsval) : option HashubVectorError :=
  set_name "TimeoutError" <$>
    new_HashubVectorError (default_parameter message "Request timeout")
      (Some "TIMEOUT_ERROR") None JUndefined.

(** What a [throw] raises: an SDK error, or the TypeError of a failed
    conversion. *)
Inductive thrown :=
| Thrown (e : HashubVectorError)
| TypeError.

(** [throw new C(...)] *)
Definition throw_new (instance : option HashubVectorError) : thrown :=
  match instance with
  | Some e => Thrown e
  | None => TypeError
  end.

(** ** The transport's failures (axios) *)

Module Axios.

(** [AxiosResponse]: [status] is a number, [data] the decoded body, and a
    header that was received is a string. *)
Record Response := {
  status : Z;
  data : jsval;
  headers : gmap string string
}.

(** [AxiosError]: what the response interceptor's rejection handler
    receives. [code] and [response] may be missing. *)
Record Error := {
  code : option string;
  message : string;
  response : option Response
}.

End Axios.

(** ** The classifier: [HashubVector.handleError] *)

(** [error.code === literal] *)
Definition code_is (error : Axios.Error) (literal : string) : bool :=
  match Axios.code error with
  | Some c => String.eqb c literal
  | None => false
  end.

(** [data?.message || data?.error || 'Unknown error'] *)
Definition extract_message (data : jsval) : jsval :=
  js_or (js_or (get_optional data "message") (get_optional data "error"))
        (JStr "Unknown error").

(** [retryAfter ? parseInt(retryAfter) : undefined] *)
Definition parse_retryAfter (retryAfter : option string) : option number :=
  match retryAfter with
  | Some text => if string_truthy text then Some (parseInt text) else None
  | None => None
  end.

Definition handleError (error : Axios.Error) : thrown :=
  if code_is error "ECONNABORTED" || code_is error "ETIMEDOUT" then
    throw_new (new_TimeoutError (JStr "Request timeout"))
  else if code_is error "ENOTFOUND" || code_is error "ECONNREFUSED" then
    throw_new (new_NetworkError (JStr "Network connection error"))
  else
    match Axios.response error with
    | None =>
        throw_new (new_NetworkError
                     (js_or (JStr (Axios.message error)) (JStr "Network error")))
    | Some response =>
        let status := Axios.status response in
        let data := Axios.data response in
        let message := extract_message data in
        if status =? 401 then throw_new (new_AuthenticationError message)
        else if status =? 402 then throw_new (new_QuotaExceededError message)
        else if status =? 400 then throw_new (new_ValidationError message)
        else if status =? 429 then
          let retryAfter := Axios.headers response !! "retry-after" in
          throw_new (new_RateLimitError message (parse_retryAfter retryAfter))
        else if (status =? 500) || (status =? 502) || (status =? 503) || (status =? 504) then
          throw_new (new_ServerError message)
        else
          throw_new (new_HashubVectorError message (Some "API_ERROR") (Some status) data)
    end.

(** ** The client ([src/client.ts]) *)

(** An optional property of an object literal: missing, or an own property,
    which may hold [undefined] ([Own None]). *)
Inductive property (A : Type) :=
| Missing
| Own (value : option A).
Arguments Missing {A}.
Arguments Own {A} value.

(** [{ key: fallback, ...source }] read at [key]: an own property of the
    object spread last wins, whatever it holds. *)
Definition spread_over {A : Type} (fallback : A) (source : property A) : option A :=
  match source with
  | Missing => Some fallback
  | Own value => value
  end.

(** [HashubVectorConfig] ([src/types.ts]) *)
Record HashubVectorConfig := {
  apiKey : string;
  baseUrl : property string;
  timeout : property Z;
  maxRetries : property Z;
  headers : property (gmap string string)
}.

(** [this.config]: every property is present; [None] is [undefined]. *)
Record StoredConfig := {
  config_apiKey : string;
  config_baseUrl : option string;
  config_timeout : option Z;
  config_maxRetries : option Z;
  config_headers : option (gmap string string)
}.

(** The defaults of the instance made by [axios.create]. *)
Record AxiosInstance := {
  baseURL : option string;
  instance_timeout : option Z;
  instance_headers : gmap string string
}.

Record HashubVector := {
  config : StoredConfig;
  client : AxiosInstance
}.

(** [{ baseUrl: ..., timeout: 30000, maxRetries: 3, headers: {}, ...config }] *)
Definition merge_config (config : HashubVectorConfig) : StoredConfig :=
  {| config_apiKey := apiKey config;
     config_baseUrl := spread_over "https://api.vector.hashub.dev" (baseUrl config);
     config_timeout := spread_over 30000 (timeout config);
     config_maxRetries := spread_over 3 (maxRetries config);
     config_headers := spread_over ∅ (headers config) |}.

(** [{ Authorization: ..., 'Content-Type': ..., 'User-Agent': ...,
       ...this.config.headers }]: the properties spread last win, and
    spreading [undefined] adds nothing. *)
Definition default_headers (stored : StoredConfig) : gmap string string :=
  default ∅ (config_headers stored) ∪
  <["Authorization" := "Bearer " +:+ config_apiKey stored]>
    (<["Content-Type" := "application/json"]>
       (<["User-Agent" := "hashub-vector-js/1.0.0"]> ∅)).

(** The constructor. *)
Definition new_HashubVector (config : HashubVectorConfig) : HashubVector :=
  let stored := merge_config config in
  {| config := stored;
     client := {| baseURL := config_baseUrl stored;
                  instance_timeout := config_timeout stored;
                  instance_headers := default_headers stored |} |}.

(** *** The executor: [HashubVector.makeRequest] *)

Inductive Method := GET | POST.

(** The request handed to [this.client.request]:
    [{ method, url: endpoint, data, ...config }], where the only property a
    caller of [makeRequest] ever puts in [config] is [params]. *)
Record AxiosRequestConfig := {
  method : Method;
  url : string;
  data : jsval;
  params : option (gmap string string)
}.

(** How the transport settles one request: a response with a 2xx status, or a
    failure. *)
Inductive settlement :=
| Fulfilled (response : Axios.Response)
| Rejected (error : Axios.Error).

(** The remote service as the executor sees it: the settlement of the
    [n]-th request (from 0) of a call. *)
Definition transport := AxiosRequestConfig → nat → settlement.

(** What a call does, in order. *)
Inductive event :=
| Request (request : AxiosRequestConfig)
| Sleep (ms : Z).

(** How a call ends: [return response.data], or [throw] of a value, which
    is [undefined] ([None]) when [lastError] was never assigned. *)
Inductive outcome :=
| Returned (data : jsval)
| Raised (error : option thrown).

(** [await this.client.request(...)] with the response interceptor
    installed by the constructor: a response passes, a failure goes through
    [handleError], which throws. *)
Definition client_request (server : transport) (request : AxiosRequestConfig)
    (n : nat) : Axios.Response + thrown :=
  match server request n with
  | Fulfilled response => inl response
  | Rejected error => inr (handleError error)
  end.

(** [error.status] of a caught value. *)
Definition thrown_status (error : thrown) : option Z :=
  match error with
  | Thrown e => status e
  | TypeError => None
  end.

(** [error.status && error.status >= 400 && error.status < 500 &&
     error.status !== 429] *)
Definition is_client_error (error : thrown) : bool :=
  match thrown_status error with
  | Some s => negb (s =? 0) && (400 <=? s) && (s <? 500) && negb (s =? 429)
  | None => false
  end.

(** [Math.pow(2, attempt) * 1000] *)
Definition backoff_delay (attempt : nat) : Z := 2 ^ Z.of_nat attempt * 1000.

(** The [for] loop from iteration [attempt] on. [remaining] counts the
    iterations the guard [attempt < maxRetries] still admits. *)
Fixpoint attempts (maxRetries : Z) (server : transport) (request : AxiosRequestConfig)
    (remaining : nat) (attempt : nat) (lastError : option thrown)
    : outcome * list event :=
  match remaining with
  | O => (Raised lastError, [])
  | S remaining' =>
      match client_request server request attempt with
      | inl response => (Returned (Axios.data response), [Request request])
      | inr error =>
          if is_client_error error then (Raised (Some error), [Request request])
          else
            let pause :=
              if Z.of_nat attempt <? maxRetries - 1
              then [Sleep (backoff_delay attempt)] else [] in
            let '(result, later) :=
              attempts maxRetries server request remaining' (S attempt) (Some error) in
            (result, Request request :: pause ++ later)
      end
  end.

(** [undefined] as [maxRetries] makes the guard false from the start. *)
Definition makeRequest (this : HashubVector) (server : transport)
    (method : Method) (endpoint : string) (data : jsval)
    (params : option (gmap string string)) : outcome * list event :=
  let request := {| method := method; url := endpoint; data := data; params := params |} in
  match config_maxRetries (config this) with
  | Some maxRetries =>
      attempts maxRetries server request (Z.to_nat maxRetries) 0 None
  | None => (Raised None, [])
  end.

(** *** The operations *)

(** [EmbeddingModel] ([src/types.ts]) *)
Inductive EmbeddingModel :=
| gte_base | nomic_base | e5_base | mpnet_base | e5_small | minilm_base.

Definition model_name (m : EmbeddingModel) : string :=
  match m with
  | gte_base => "gte_base"
  | nomic_base => "nomic_base"
  | e5_base => "e5_base"
  | mpnet_base => "mpnet_base"
  | e5_small => "e5_small"
  | minilm_base => "minilm_base"
  end.

(** An optional property read from a request object. *)
Definition optional_model (model : option EmbeddingModel) : jsval :=
  match model with
  | Some m => JStr (model_name m)
  | None => JUndefined
  end.

(** [chunkSize] and [chunkOverlap] are optional numbers that the client
    hands on as they are. *)
Record VectorizeRequest := {
  text : string;
  model : option EmbeddingModel;
  chunkSize : jsval;
  chunkOverlap : jsval
}.

Record VectorizeBatchRequest := {
  texts : list string;
  batch_model : option EmbeddingModel;
  batch_chunkSize : jsval;
  batch_chunkOverlap : jsval
}.

Record SimilarityRequest := {
  text1 : string;
  text2 : string;
  similarity_model : option EmbeddingModel
}.

Definition vectorize_body (request : VectorizeRequest) : jsval :=
  JObj [("text", JStr (text request));
        ("model", js_or (optional_model (model request)) (JStr "e5_base"));
        ("chunk_size", chunkSize request);
        ("chunk_overlap", chunkOverlap request)].

Definition vectorize (this : HashubVector) (server : transport)
    (request : VectorizeRequest) : outcome * list event :=
  makeRequest this server POST "/vectorize" (vectorize_body request) None.

Definition vectorizeBatch_body (request : VectorizeBatchRequest) : jsval :=
  JObj [("texts", JArr (JStr <$> texts request));
        ("model", js_or (optional_model (batch_model request)) (JStr "e5_base"));
        ("chunk_size", batch_chunkSize request);
        ("chunk_overlap", batch_chunkOverlap request)].

Definition vectorizeBatch (this : HashubVector) (server : transport)
    (request : VectorizeBatchRequest) : outcome * list event :=
  makeRequest this server POST "/vectorize-batch" (vectorizeBatch_body request) None.

Definition similarity_body (request : SimilarityRequest) : jsval :=
  JObj [("text1", JStr (text1 request));
        ("text2", JStr (text2 request));
        ("model", js_or (optional_model (similarity_model request)) (JStr "e5_base"))].

Definition similarity (this : HashubVector) (server : transport)
    (request : SimilarityRequest) : outcome * list event :=
  makeRequest this server POST "/similarity" (similarity_body request) None.

(** ** The specification's vocabulary *)

(** The taxonomy of the specification; [Unclassified] is its residual
    "generic API error". *)
Inductive ErrorKind :=
| Authentication | RateLimit | QuotaExceeded | Validation
| Server | Network | Timeout | Unclassified.

(** The kind of an instance, told by its class. *)
Definition error_kind (e : HashubVectorError) : option ErrorKind :=
  if String.eqb (name e) "AuthenticationError" then Some Authentication
  else if String.eqb (name e) "RateLimitError" then Some RateLimit
  else if String.eqb (name e) "QuotaExceededError" then Some QuotaExceeded
  else if String.eqb (name e) "ValidationError" then Some Validation
  else if String.eqb (name e) "ServerError" then Some Server
  else if String.eqb (name e) "NetworkError" then Some Network
  else if String.eqb (name e) "TimeoutError" then Some Timeout
  else if String.eqb (name e) "HashubVectorError" then Some Unclassified
  else None.

Definition code_among (error : Axios.Error) (codes : list string) : bool :=
  match Axios.code error with
  | Some c => bool_decide (c ∈ codes)
  | None => false
  end.

(** The mapping table of the specification, read top to bottom: the first
    row that applies gives the kind. *)
Definition classification_table (error : Axios.Error) : ErrorKind :=
  if code_among error ["ECONNABORTED"; "ETIMEDOUT"] then Timeout
  else if code_among error ["ENOTFOUND"; "ECONNREFUSED"] then Network
  else
    match Axios.response error with
    | None => Network
    | Some response =>
        match Axios.status response with
        | 401 => Authentication
        | 402 => QuotaExceeded
        | 400 => Validation
        | 429 => RateLimit
        | 500 | 502 | 503 | 504 => Server
        | _ => Unclassified
        end
    end.

(** The failure carries none of the four transport codes that the
    classifier looks at before anything else. *)
Definition no_transport_code (error : Axios.Error) : Prop :=
  code_among error ["ECONNABORTED"; "ETIMEDOUT"; "ENOTFOUND"; "ECONNREFUSED"] = false.

(** The value chosen as message from the body of a failure converts to a
    string. Every string, number, boolean and [null] does, and so does an
    object that has no [toString] property of its own. *)
Definition message_converts (error : Axios.Error) : Prop :=
  ∀ response, Axios.response error = Some response →
    is_Some (ToString (extract_message (Axios.data response))).

(** The message policy in the words of the specification: the [message]
    field of the body when present, else its [error] field, else the
    literal. *)
Definition message_policy (body : jsval) : jsval :=
  match body with
  | JObj props =>
      match own_property props "message", own_property props "error" with
      | Some m, _ => m
      | None, Some e => e
      | None, None => JStr "Unknown error"
      end
  | _ => JStr "Unknown error"
  end.

(** What the classifier chooses: the first of the two fields that is
    truthy. *)
Definition first_truthy (body : jsval) : jsval :=
  if truthy (get_optional body "message") then get_optional body "message"
  else if truthy (get_optional body "error") then get_optional body "error"
  else JStr "Unknown error".

Definition is_primitive (v : jsval) : bool :=
  match v with
  | JArr _ | JObj _ => false
  | _ => true
  end.

(** The kinds after which the executor gives up at once. *)
Definition terminal_kind (k : ErrorKind) : bool :=
  match k with
  | Authentication | QuotaExceeded | Validation => true
  | _ => false
  end.

(** The errors after which the executor goes on: every kind that is not
    terminal, a generic API error only when its status is not a 4xx. *)
Definition retried (e : HashubVectorError) : bool :=
  match error_kind e with
  | Some (RateLimit | Server | Network | Timeout) => true
  | Some Unclassified =>
      match status e with
      | Some s => negb ((400 <=? s) && (s <? 500))
      | None => true
      end
  | _ => false
  end.

(** Attempts [from], ..., [from + failures], with the exponential pause
    after each of them but the last. *)
Fixpoint backoff_schedule (request : AxiosRequestConfig) (from failures : nat)
    : list event :=
  match failures with
  | O => [Request request]
  | S failures' =>
      Request request :: Sleep (2 ^ Z.of_nat from * 1000)
        :: backoff_schedule request (S from) failures'
  end.

Fixpoint requests_made (trace : list event) : nat :=
  match trace with
  | [] => 0
  | Request _ :: rest => S (requests_made rest)
  | Sleep _ :: rest => requests_made rest
  end.

(** Every request of the trace carries [body]. *)
Definition requests_carry (body : jsval) (trace : list event) : Prop :=
  Forall (λ ev, match ev with Request r => data r = body | Sleep _ => True end) trace.

Definition delays (trace : list event) : list Z :=
  omap (λ ev, match ev with Sleep ms => Some ms | Request _ => None end) trace.

(** What one settlement makes of the call if the loop ends on it. *)
Definition settle (s : settlement) : outcome :=
  match s with
  | Fulfilled response => Returned (Axios.data response)
  | Rejected error => Raised (Some (handleError error))
  end.

(** The loop goes on after this settlement, if the guard lets it. *)
Definition goes_on (s : settlement) : bool :=
  match s with
  | Fulfilled _ => false
  | Rejected error => negb (is_client_error (handleError error))
  end.

(** A failure that the classifier turns into an error of a retried kind. *)
Definition retried_failure (s : settlement) : Prop :=
  ∃ error e, s = Rejected error ∧ handleError error = Thrown e ∧ retried e = true.

(** The custom headers that a configuration supplies, if any. *)
Definition extra_headers (config : HashubVectorConfig) : gmap string string :=
  match headers config with
  | Own (Some custom) => custom
  | Own None | Missing => ∅
  end.

(** *** Sample inputs *)

(** The failure that the transport reports for a response whose status is
    not a 2xx. *)
Definition http_failure (st : Z) (body : jsval) (hdrs : gmap string string)
    : Axios.Error :=
  {| Axios.code :=
       Some (if (400 <=? st) && (st <? 500) then "ERR_BAD_REQUEST"
             else "ERR_BAD_RESPONSE");
     Axios.message := "Request failed with status code " +:+ decimal st;
     Axios.response :=
       Some {| Axios.status := st; Axios.data := body; Axios.headers := hdrs |} |}.

Definition only_apiKey (key : string) : HashubVectorConfig :=
  {| apiKey := key; baseUrl := Missing; timeout := Missing;
     maxRetries := Missing; headers := Missing |}.

Definition with_maxRetries (key : string) (n : Z) : HashubVectorConfig :=
  {| apiKey := key; baseUrl := Missing; timeout := Missing;
     maxRetries := Own (Some n); headers := Missing |}.

Definition always_rejects (error : Axios.Error) : transport :=
  λ _ _, Rejected error.

(** ** The other operations of the client *)

(** [v.key] where [v] may be anything: reading a property of [undefined] or
    [null] throws a TypeError ([None]). *)
Definition member (v : jsval) (key : string) : option jsval :=
  match v with
  | JUndefined | JNull => None
  | _ => Some (get v key)
  end.

(** [getModels]: the [models] property of the response. *)
Definition getModels (this : HashubVector) (server : transport)
    : outcome * list event :=
  let '(result, trace) := makeRequest this server GET "/models" JUndefined None in
  match result with
  | Returned response =>
      match member response "models" with
      | Some models => (Returned models, trace)
      | None => (Raised (Some TypeError), trace)
      end
  | Raised error => (Raised error, trace)
  end.

Definition getUsage (this : HashubVector) (server : transport)
    : outcome * list event :=
  makeRequest this server GET "/usage" JUndefined None.

(** [if (from) params.from = from; if (to) params.to = to;] on an empty
    object. An argument that is left out is [None]. *)
Definition usage_params (from to : option string) : gmap string string :=
  let params : gmap string string := ∅ in
  let params :=
    match from with
    | Some text => if string_truthy text then <["from" := text]> params else params
    | None => params
    end in
  match to with
  | Some text => if string_truthy text then <["to" := text]> params else params
  | None => params
  end.

Definition getDetailedUsage (this : HashubVector) (server : transport)
    (from to : option string) : outcome * list event :=
  makeRequest this server GET "/usage" JUndefined (Some (usage_params from to)).

(** [input: string | string[]] *)
Inductive EmbeddingInput :=
| OneText (text : string)
| ManyTexts (texts : list string).

(** [OpenAIEmbeddingRequest] ([src/types.ts]) *)
Record OpenAIEmbeddingRequest := {
  input : EmbeddingInput;
  embedding_model : EmbeddingModel;
  user : option string
}.

Definition createEmbedding_body (request : OpenAIEmbeddingRequest) : jsval :=
  JObj [("input", match input request with
                  | OneText text => JStr text
                  | ManyTexts texts => JArr (JStr <$> texts)
                  end);
        ("model", JStr (model_name (embedding_model request)));
        ("user", match user request with
                 | Some u => JStr u
                 | None => JUndefined
                 end)].

Definition createEmbedding (this : HashubVector) (server : transport)
    (request : OpenAIEmbeddingRequest) : outcome * list event :=
  makeRequest this server POST "/embeddings" (createEmbedding_body request) None.

(** ** The example programs ([examples/async-examples.ts]) *)

(** *** [withRetry] *)

(** How a call of [withRetry] ends: with the value of the operation, with
    the error that the operation threw, or with
    [new Error('Max retries exceeded')]. *)
Inductive retry_outcome (A E : Type) :=
| Resolved (value : A)
| Failed (error : E)
| MaxRetriesExceeded.
Arguments Resolved {A E} value.
Arguments Failed {A E} error.
Arguments MaxRetriesExceeded {A E}.

(** What a call of [withRetry] does, in order. *)
Inductive retry_step :=
| Invocation (attempt : nat)
| Pause (ms : Z).

(** The [for] loop of [withRetry] from iteration [attempt] on;
    [operation n] is how the [n]-th invocation of [operation()] settles, and
    [remaining] counts the iterations the guard [attempt < maxRetries] still
    admits. *)
Fixpoint withRetry_attempts {A E : Type} (operation : nat → A + E)
    (maxRetries baseDelay : Z) (remaining attempt : nat)
    : retry_outcome A E * list retry_step :=
  match remaining with
  | O => (MaxRetriesExceeded, [])
  | S remaining' =>
      match operation attempt with
      | inl value => (Resolved value, [Invocation attempt])
      | inr error =>
          if Z.of_nat attempt =? maxRetries - 1
          then (Failed error, [Invocation attempt])
          else
            let '(result, later) :=
              withRetry_attempts operation maxRetries baseDelay remaining' (S attempt) in
            (result,
             Invocation attempt :: Pause (baseDelay * 2 ^ Z.of_nat attempt) :: later)
      end
  end.

(** [withRetry(operation, maxRetries = 3, baseDelay = 1000)]; an argument
    that is left out is [None]. *)
Definition withRetry {A E : Type} (operation : nat → A + E)
    (maxRetries baseDelay : option Z) : retry_outcome A E * list retry_step :=
  let maxRetries := default 3 maxRetries in
  let baseDelay := default 1000 baseDelay in
  withRetry_attempts operation maxRetries baseDelay (Z.to_nat maxRetries) 0.

(** An operation of the client as [withRetry] sees it: what it returns or
    what it throws. *)
Definition settle_call (run : outcome * list event) : jsval + option thrown :=
  match run.1 with
  | Returned data => inl data
  | Raised error => inr error
  end.

(** [withRetry(async () => await client.vectorize(request))], as in the
    demonstration: [world n] is the service as the [n]-th call of the client
    meets it. *)
Definition withRetry_vectorize (this : HashubVector) (world : nat → transport)
    (request : VectorizeRequest) (maxRetries baseDelay : option Z)
    : retry_outcome jsval (option thrown) * list retry_step :=
  withRetry (λ n, settle_call (vectorize this (world n) request)) maxRetries baseDelay.

(** The requests that the invocations of a run issue, [calls n] being the
    trace of the [n]-th call of the client. *)
Fixpoint requests_of (calls : nat → list event) (steps : list retry_step) : nat :=
  match steps with
  | [] => 0
  | Invocation n :: rest => requests_made (calls n) + requests_of calls rest
  | Pause _ :: rest => requests_of calls rest
  end.

(** *** [processLargeDataset] *)

(** [Array.prototype.slice(start, end)]: a negative index counts from the
    end of the array. *)
Definition slice {A : Type} (l : list A) (start stop : Z) : list A :=
  let len := Z.of_nat (length l) in
  let relative (k : Z) := if k <? 0 then Z.max (len + k) 0 else Z.min k len in
  let from := relative start in
  let to := relative stop in
  take (Z.to_nat (to - from)) (drop (Z.to_nat from) l).

(** [Math.floor(i / batchSize)] on integers. *)
Definition floor_quotient (i batchSize : Z) : number :=
  if batchSize =? 0 then
    if i =? 0 then NaN
    else Fractional (if 0 <? i then "Infinity" else "-Infinity")
  else if (i =? 0) && (batchSize <? 0) then NegZero
  else Num (i / batchSize).

(** The [error] property of a report: missing, a message, or the message
    that the engine gave a TypeError. *)
Inductive report_error :=
| NoError
| ErrorMessage (text : string)
| TypeErrorMessage.

(** What the generator yields for a batch. *)
Record BatchReport := {
  batchIndex : number;
  startIndex : Z;
  endIndex : Z;
  error : report_error;
  count : jsval;
  tokens : jsval;
  vectors : jsval
}.

(** [error instanceof Error ? error.message : 'Unknown error'] *)
Definition caught_message (caught : option thrown) : report_error :=
  match caught with
  | Some (Thrown e) => ErrorMessage (message e)
  | Some TypeError => TypeErrorMessage
  | None => ErrorMessage "Unknown error"
  end.

(** The body of the loop for the batch that starts at [i]: the call of the
    client, here the [call]-th of the run, and the report that is yielded,
    with the requests of the call. *)
Definition batch_report (this : HashubVector) (world : nat → transport)
    (texts : list string) (batchSize i : Z) (call : nat)
    : BatchReport * list event :=
  let batch := slice texts i (i + batchSize) in
  let run := vectorizeBatch this (world call)
               {| texts := batch; batch_model := Some e5_small;
                  batch_chunkSize := JUndefined; batch_chunkOverlap := JUndefined |} in
  let failure (text : report_error) :=
    {| batchIndex := floor_quotient i batchSize;
       startIndex := i;
       endIndex := Z.min (i + batchSize - 1) (Z.of_nat (length texts) - 1);
       error := text;
       count := JNum (Num 0); tokens := JNum (Num 0); vectors := JArr [] |} in
  let report :=
    match run.1 with
    | Returned response =>
        match member response "count", member response "totalTokens",
              member response "vectors" with
        | Some count, Some tokens, Some vectors =>
            {| batchIndex := floor_quotient i batchSize;
               startIndex := i;
               endIndex := Z.min (i + batchSize - 1) (Z.of_nat (length texts) - 1);
               error := NoError;
               count := count; tokens := tokens; vectors := vectors |}
        | _, _, _ => failure TypeErrorMessage
        end
    | Raised caught => failure (caught_message caught)
    end in
  (report, run.2).

(** The loop of the generator from index [i] on, [call] batches having been
    sent. [None]: the loop is still running when [fuel] iterations are
    done. *)
Fixpoint processLargeDataset_from (this : HashubVector) (world : nat → transport)
    (texts : list string) (batchSize : Z) (fuel : nat) (i : Z) (call : nat)
    : option (list (BatchReport * list event)) :=
  if i <? Z.of_nat (length texts) then
    match fuel with
    | O => None
    | S fuel' =>
        rest ← processLargeDataset_from this world texts batchSize fuel'
                 (i + batchSize) (S call);
        Some (batch_report this world texts batchSize i call :: rest)
    end
  else Some [].

(** [processLargeDataset(texts, batchSize = 10)]: all that the generator
    yields, in order. *)
Definition processLargeDataset (this : HashubVector) (world : nat → transport)
    (texts : list string) (batchSize : option Z) (fuel : nat)
    : option (list (BatchReport * list event)) :=
  processLargeDataset_from this world texts (default 10 batchSize) fuel 0 0.

(** *** [withFallback] *)

(** [withFallback(primaryModel, fallbackModel, text)], for model names of
    the API: [first] is the service as the call with the primary model meets
    it, [second] as the call with the fallback model does. *)
Definition withFallback (this : HashubVector) (first second : transport)
    (primaryModel fallbackModel : EmbeddingModel) (text : string)
    : outcome * list event :=
  let '(result, trace) :=
    vectorize this first
      {| text := text; model := Some primaryModel;
         chunkSize := JUndefined; chunkOverlap := JUndefined |} in
  match result with
  | Returned response => (Returned response, trace)
  | Raised _ =>
      let '(result', trace') :=
        vectorize this second
          {| text := text; model := Some fallbackModel;
             chunkSize := JUndefined; chunkOverlap := JUndefined |} in
      (result', trace ++ trace')
  end.

(** *** Vocabulary for the further properties *)

(** The [code] string that each class gives its instances ([src/errors.ts]),
    and the one that [handleError] gives the generic error. *)
Definition code_of_kind (k : ErrorKind) : string :=
  match k with
  | Authentication => "AUTHENTICATION_ERROR"
  | RateLimit => "RATE_LIMIT_ERROR"
  | QuotaExceeded => "QUOTA_EXCEEDED_ERROR"
  | Validation => "VALIDATION_ERROR"
  | Server => "SERVER_ERROR"
  | Network => "NETWORK_ERROR"
  | Timeout => "TIMEOUT_ERROR"
  | Unclassified => "API_ERROR"
  end.

(** The time a call spends asleep. *)
Definition total_delay (trace : list event) : Z := foldr Z.add 0 (delays trace).

(** Every request of the trace is [request]. *)
Definition requests_are (request : AxiosRequestConfig) (trace : list event) : Prop :=
  Forall (λ ev, match ev with Request r => r = request | Sleep _ => True end) trace.

(** Invocations [from], ..., [from + failures] of the operation that
    [withRetry] is given, with the pause after each of them but the last. *)
Fixpoint retry_schedule (baseDelay : Z) (from failures : nat) : list retry_step :=
  match failures with
  | O => [Invocation from]
  | S failures' =>
      Invocation from :: Pause (baseDelay * 2 ^ Z.of_nat from)
        :: retry_schedule baseDelay (S from) failures'
  end.

(** The invocation threw. *)
Definition failed {A E : Type} (settled : A + E) : bool :=
  match settled with
  | inl _ => false
  | inr _ => true
  end.

(** What [withRetry] makes of the invocation on which its loop ends. *)
Definition ended {A E : Type} (settled : A + E) : retry_outcome A E :=
  match settled with
  | inl value => Resolved value
  | inr error => Failed error
  end.

(** The number of batches of [batchSize] texts that [len] texts make. *)
Definition batches_needed (len : nat) (batchSize : Z) : nat :=
  Z.to_nat ((Z.of_nat len + batchSize - 1) / batchSize).

(** The batch of rank [j]. *)
Definition batch_of (texts : list string) (batchSize : Z) (j : nat) : list string :=
  take (Z.to_nat batchSize) (drop (j * Z.to_nat batchSize) texts).

(** The request that [processLargeDataset] makes for a batch. *)
Definition batch_request (batch : list string) : VectorizeBatchRequest :=
  {| texts := batch; batch_model := Some e5_small;
     batch_chunkSize := JUndefined; batch_chunkOverlap := JUndefined |}.

(** * Properties *)

(** ** JavaScript *)

Lemma ToString_primitive v : is_primitive v = true → is_Some (ToString v).
Proof. destruct v as [| |[]| | | |]; simpl; try done; eauto. Qed.

(** *** [parseInt] reads back what decimal notation prints *)

Section DecimalNumerals.

Implicit Types (d : Decimal.uint) (acc : positive).

Lemma parse_digits_acc d acc :
  parse_digits 10 (NilEmpty.string_of_uint d) (Some (Z.pos acc)) =
  Some (Z.pos (Pos.of_uint_acc d acc)).
Proof.
  revert acc. induction d; intros acc; simpl; [done|..];
    rewrite <- IHd; do 2 f_equal; lia.
Qed.

Lemma parse_digits_zero d :
  parse_digits 10 (NilEmpty.string_of_uint d) (Some 0) =
  Some (Z.of_N (Pos.of_uint d)).
Proof.
  induction d; simpl; [done | done | ..];
    by rewrite <- parse_digits_acc.
Qed.

Lemma parse_digits_decimal d :
  d ≠ Decimal.Nil →
  parse_digits 10 (NilEmpty.string_of_uint d) None = Some (Z.of_N (Pos.of_uint d)).
Proof.
  destruct d; intros Hd; simpl; [done | apply parse_digits_zero | ..];
    by rewrite <- parse_digits_acc.
Qed.

(** Whatever the digits are worth, the three results of [parseInt] follow. *)
Ltac by_parsed_value :=
  first
    [ done
    | match goal with
      | |- context [parse_digits ?R ?s ?a] =>
          by destruct (parse_digits R s a) as [[]|]
      end ].

(** An unsigned decimal numeral has no white space, sign or [0x] in front. *)
Lemma parseInt_unsigned d :
  d ≠ Decimal.Nil →
  parseInt (NilEmpty.string_of_uint d) =
  match parse_digits 10 (NilEmpty.string_of_uint d) None with
  | None => NaN
  | Some 0 => Num 0
  | Some mathInt => Num mathInt
  end.
Proof.
  destruct d as [|d|d|d|d|d|d|d|d|d|d]; intros Hd; [done|..];
    try (unfold parseInt; simpl; by_parsed_value).
  unfold parseInt. destruct d; simpl; by_parsed_value.
Qed.

Lemma parseInt_negative d :
  d ≠ Decimal.Nil →
  parseInt (String "-" (NilEmpty.string_of_uint d)) =
  match parse_digits 10 (NilEmpty.string_of_uint d) None with
  | None => NaN
  | Some 0 => NegZero
  | Some mathInt => Num (- mathInt)
  end.
Proof.
  destruct d as [|d|d|d|d|d|d|d|d|d|d]; intros Hd; [done|..];
    try (unfold parseInt; simpl; by_parsed_value).
  unfold parseInt. destruct d; simpl; by_parsed_value.
Qed.

Lemma string_of_uint_nonnil d :
  d ≠ Decimal.Nil → NilZero.string_of_uint d = NilEmpty.string_of_uint d.
Proof. by destruct d. Qed.

Lemma parseInt_decimal (n : Z) : parseInt (decimal n) = Num n.
Proof.
  unfold decimal. destruct n as [|p|p]; [done|..]; simpl;
    pose proof (Unsigned.to_uint_nonnil p) as Hnil;
    rewrite string_of_uint_nonnil by done;
    rewrite ?parseInt_unsigned, ?parseInt_negative, parse_digits_decimal,
      Unsigned.of_to by done;
    done.
Qed.

Lemma decimal_truthy (n : Z) : string_truthy (decimal n) = true.
Proof.
  unfold decimal. destruct n as [|p|p]; [done|..]; simpl; [|done].
  pose proof (Unsigned.to_uint_nonnil p) as Hnil.
  rewrite string_of_uint_nonnil by done.
  by destruct (Pos.to_uint p).
Qed.

End DecimalNumerals.

(** What [parseInt] makes of other header values. *)
Example parseInt_samples :
  parseInt "30" = Num 30 ∧ parseInt " 7 seconds" = Num 7 ∧
  parseInt "1.5" = Num 1 ∧ parseInt "0x1F" = Num 31 ∧ parseInt "-0" = NegZero ∧
  parseInt "soon" = NaN ∧ parseInt "Wed, 21 Oct 2015 07:28:00 GMT" = NaN.
Proof. by repeat split. Qed.

(** ** The error classes *)

(** The expectations of [tests/errors.test.ts]. *)
Example error_classes_as_tested :
  new_HashubVectorError (JStr "Test error") (Some "TEST_ERROR") (Some 500) JUndefined
    = Some {| name := "HashubVectorError"; message := "Test error";
              code := Some "TEST_ERROR"; status := Some 500;
              details := JUndefined; retryAfter := None |} ∧
  new_HashubVectorError (JStr "Test error") None None JUndefined
    = Some {| name := "HashubVectorError"; message := "Test error";
              code := None; status := None;
              details := JUndefined; retryAfter := None |} ∧
  new_AuthenticationError JUndefined
    = Some {| name := "AuthenticationError";
              message := "Invalid API key or authentication failed";
              code := Some "AUTHENTICATION_ERROR"; status := Some 401;
              details := JUndefined; retryAfter := None |} ∧
  (retryAfter <$> new_RateLimitError JUndefined None) = Some None ∧
  (retryAfter <$> new_RateLimitError (JStr "Custom rate limit message")
                    (Some (Num 60))) = Some (Some (Num 60)) ∧
  (message <$> new_QuotaExceededError JUndefined) = Some "Token quota exceeded" ∧
  (message <$> new_ValidationError (JStr "Invalid request data"))
    = Some "Invalid request data" ∧
  (status <$> new_ServerError JUndefined) = Some (Some 500) ∧
  (status <$> new_NetworkError (JStr "Connection timeout")) = Some None ∧
  (code <$> new_TimeoutError JUndefined) = Some (Some "TIMEOUT_ERROR").
Proof. by repeat split. Qed.

(** The message of an error is the conversion of a truthy argument: no
    default applies to it. *)
Lemma Error_message_truthy m : truthy m = true → Error_message m = ToString m.
Proof. by destruct m. Qed.

Lemma Error_message_default m fallback :
  truthy m = true → Error_message (default_parameter m fallback) = ToString m.
Proof. by destruct m. Qed.

(** ** The classifier *)

Lemma extract_message_truthy data : truthy (extract_message data) = true.
Proof.
  unfold extract_message.
  generalize (js_or (get_optional data "message") (get_optional data "error")).
  intros chosen. unfold js_or.
  destruct (truthy chosen) eqn:E; [exact E | reflexivity].
Qed.

Lemma extract_message_first_truthy body : extract_message body = first_truthy body.
Proof.
  unfold extract_message, first_truthy, js_or.
  destruct (truthy (get_optional body "message")) eqn:Hm; [by rewrite Hm|].
  by destruct (truthy (get_optional body "error")).
Qed.

Lemma first_truthy_primitive body :
  is_primitive (get_optional body "message") = true →
  is_primitive (get_optional body "error") = true →
  is_primitive (first_truthy body) = true.
Proof. intros Hm He. unfold first_truthy. by repeat case_match. Qed.

Lemma first_truthy_not_object body :
  (∀ props, body ≠ JObj props) → first_truthy body = JStr "Unknown error".
Proof. intros Hbody. destruct body; try done. by destruct (Hbody props). Qed.

Lemma code_among_cons error c codes :
  code_among error (c :: codes) = code_is error c || code_among error codes.
Proof.
  unfold code_among, code_is. destruct (Axios.code error) as [k|]; [|done].
  destruct (String.eqb_spec k c) as [->|Hne]; simpl.
  - apply bool_decide_eq_true. left.
  - apply bool_decide_ext. rewrite elem_of_cons.
    split; [intros [Heq|Hin]; [congruence | exact Hin] | intros Hin; right; exact Hin].
Qed.

Lemma code_among_nil error : code_among error [] = false.
Proof.
  unfold code_among. destruct (Axios.code error); [|done].
  apply bool_decide_eq_false. apply not_elem_of_nil.
Qed.

Create Rewrite HintDb classifier.
#[local] Hint Rewrite code_among_cons code_among_nil : classifier.

(** The [match] of the table on a status is the chain of comparisons of the
    [switch]. *)
Lemma status_table (s : Z) :
  match s with
  | 401 => Authentication
  | 402 => QuotaExceeded
  | 400 => Validation
  | 429 => RateLimit
  | 500 | 502 | 503 | 504 => Server
  | _ => Unclassified
  end =
  if s =? 401 then Authentication
  else if s =? 402 then QuotaExceeded
  else if s =? 400 then Validation
  else if s =? 429 then RateLimit
  else if (s =? 500) || (s =? 502) || (s =? 503) || (s =? 504) then Server
  else Unclassified.
Proof.
  destruct s as [|p|p]; [reflexivity| |reflexivity].
  do 10 (try (destruct p as [p|p|]; try reflexivity)).
Qed.

(** Opens [handleError] on a failure: one goal per branch of the code, with
    the message of the body converted or not. *)
Ltac classifier_cases error :=
  unfold handleError;
  autorewrite with classifier in *;
  destruct (code_is error "ECONNABORTED"), (code_is error "ETIMEDOUT"),
    (code_is error "ENOTFOUND"), (code_is error "ECONNREFUSED");
  simpl in *; try discriminate;
  try (destruct (Axios.response error) as [[st body hdrs]|] eqn:?; simpl in *);
  unfold new_AuthenticationError, new_QuotaExceededError, new_ValidationError,
    new_RateLimitError, new_ServerError, new_NetworkError, new_TimeoutError,
    new_HashubVectorError;
  try rewrite !(Error_message_default _ _ (extract_message_truthy _));
  try rewrite !(Error_message_truthy _ (extract_message_truthy _));
  try match goal with
      | |- context [ToString (extract_message ?b)] =>
          destruct (ToString (extract_message b)) as [?|] eqn:?; simpl in *
      end;
  try match goal with
      | |- context [js_or (JStr (Axios.message ?e)) _] =>
          destruct (Axios.message e) eqn:?; simpl in *
      end;
  repeat match goal with
    | |- context [?a =? ?b] => destruct (Z.eqb_spec a b); subst; simpl in *
    end.

(** Closes the branches in which the message does not convert, against a
    hypothesis [H : message_converts error], unfolded. *)
Ltac converts_or_absurd H :=
  match goal with
  | Hnone : ToString (extract_message _) = None |- _ =>
      exfalso; specialize (H _ eq_refl); simpl in H; rewrite Hnone in H;
      destruct H as [? H]; discriminate H
  end.

(** The last row of the table, for a status that is none of the eight. *)
Ltac other_status :=
  rewrite status_table;
  repeat match goal with
    | |- context [?a =? ?b] => destruct (Z.eqb_spec a b); [congruence|]; simpl
    end.

Lemma handleError_throws error :
  message_converts error → ∃ e, handleError error = Thrown e.
Proof.
  intros Hconv. unfold message_converts in *.
  classifier_cases error; try converts_or_absurd Hconv; eauto.
Qed.

(** The status that each class gives its instances. *)
Lemma handleError_status error e :
  handleError error = Thrown e →
  match error_kind e with
  | Some Authentication => status e = Some 401
  | Some QuotaExceeded => status e = Some 402
  | Some Validation => status e = Some 400
  | Some RateLimit => status e = Some 429
  | Some Server => status e = Some 500
  | Some (Network | Timeout) => status e = None
  | Some Unclassified =>
      ∃ s, status e = Some s ∧ s ≠ 400 ∧ s ≠ 401 ∧ s ≠ 402 ∧ s ≠ 429
  | None => False
  end.
Proof.
  classifier_cases error; intros Heq; inversion Heq; subst; simpl;
    try reflexivity.
  eexists; eauto.
Qed.

(** *** What the classifier guarantees *)

(** X23. The classifier gives a failure the kind that the mapping table of
    the specification gives it, read in its fixed order: a transport
    timeout code, then a connection-refused or unresolved-host code, then
    the absence of a response, then the HTTP status. The generic error of
    the last row carries the raw status and body. A classified error comes
    out for every failure whose body message converts to a string, and
    whenever one comes out it is of the kind of the table. *)
Theorem handleError_follows_table :
  (∀ error,
     message_converts error →
     ∃ e, handleError error = Thrown e ∧
          error_kind e = Some (classification_table error)) ∧
  (∀ error e,
     handleError error = Thrown e →
     error_kind e = Some (classification_table error) ∧
     (classification_table error = Unclassified →
      ∃ response, Axios.response error = Some response ∧
                  code e = Some "API_ERROR" ∧
                  status e = Some (Axios.status response) ∧
                  details e = Axios.data response)).
Proof.
  assert (∀ error e,
     handleError error = Thrown e →
     error_kind e = Some (classification_table error) ∧
     (classification_table error = Unclassified →
      ∃ response, Axios.response error = Some response ∧
                  code e = Some "API_ERROR" ∧
                  status e = Some (Axios.status response) ∧
                  details e = Axios.data response)) as Hkind.
  { intros error e. unfold classification_table.
    classifier_cases error; intros Heq; inversion Heq; subst; clear Heq;
      try (split; [reflexivity | discriminate]).
    other_status. split; [reflexivity|]. intros _. by eexists. }
  split; [|exact Hkind].
  intros error Hconv. destruct (handleError_throws error Hconv) as [e He].
  exists e. split; [done|]. by apply Hkind.
Qed.

Lemma handleError_follows_table_witness :
  let error := http_failure 403 (JObj [("error", JStr "forbidden")]) ∅ in
  ∃ e, handleError error = Thrown e ∧
       error_kind e = Some Unclassified ∧
       code e = Some "API_ERROR" ∧
       status e = Some 403 ∧
       details e = JObj [("error", JStr "forbidden")].
Proof.
  intros error.
  destruct (proj1 handleError_follows_table error) as (e & He & Hkind).
  { intros response [= <-]. vm_compute. eauto. }
  destruct (proj2 handleError_follows_table error e He) as [_ Hgeneric].
  destruct (Hgeneric eq_refl) as (response & [= <-] & Hcode & Hstatus & Hdetails).
  exists e. by repeat split.
Defined.

(** C3. The table gives every failure a kind; the classifier does not. An
    HTTP 401 whose body has for [message] an object with a [toString]
    property of its own that is no function is an Authentication failure
    by the table, but the constructor of the error throws a TypeError on
    converting that message, and the classifier lets it escape: no error of
    any kind comes out, against its own description (it converts failures
    to errors of the SDK, and never returns otherwise). *)
Lemma handleError_gives_no_kind :
  let failure :=
    http_failure 401 (JObj [("message", JObj [("toString", JNull)])]) ∅ in
  no_transport_code failure ∧
  classification_table failure = Authentication ∧
  handleError failure = TypeError ∧
  ¬ ∃ e, handleError failure = Thrown e.
Proof.
  repeat split. by intros [e He].
Qed.

(** C5, as the code has it. For every HTTP failure that reaches the
    status switch, the message of the classified error is the [message]
    field of the body when that field is truthy (present and not empty),
    else the [error] field when truthy, else the literal
    ["Unknown error"], converted to a string; a string is taken as it is.
    HTTP 401 with body [{"message":"bad key"}] gives an
    [AuthenticationError] with message ["bad key"]. *)
Theorem handleError_message :
  (∀ error response text,
     no_transport_code error →
     Axios.response error = Some response →
     ToString (first_truthy (Axios.data response)) = Some text →
     ∃ e, handleError error = Thrown e ∧ message e = text) ∧
  (∀ error response chosen,
     no_transport_code error →
     Axios.response error = Some response →
     first_truthy (Axios.data response) = JStr chosen →
     ∃ e, handleError error = Thrown e ∧ message e = chosen) ∧
  handleError (http_failure 401 (JObj [("message", JStr "bad key")]) ∅) =
    Thrown {| name := "AuthenticationError"; message := "bad key";
              code := Some "AUTHENTICATION_ERROR"; status := Some 401;
              details := JUndefined; retryAfter := None |}.
Proof.
  assert (∀ error response text,
     no_transport_code error →
     Axios.response error = Some response →
     ToString (first_truthy (Axios.data response)) = Some text →
     ∃ e, handleError error = Thrown e ∧ message e = text) as Hgeneral.
  { intros error response text Hcode Hresponse Htext.
    rewrite <- extract_message_first_truthy in Htext.
    unfold no_transport_code in Hcode.
    classifier_cases error; simplify_eq; simpl in *; simplify_eq; eauto. }
  split; [exact Hgeneral|]. split; [|reflexivity].
  intros error response chosen Hcode Hresponse Hchosen.
  apply (Hgeneral error response); [done..|]. by rewrite Hchosen.
Qed.

Lemma handleError_message_witness :
  ∃ e, handleError (http_failure 402
         (JObj [("message", JStr EmptyString); ("error", JStr "quota exhausted")]) ∅)
       = Thrown e ∧ message e = "quota exhausted".
Proof.
  eapply (proj1 handleError_message); [reflexivity..].
Defined.

(** C5 as stated fails: a [message] field that is present but empty is
    passed over for the [error] field. *)
Lemma message_field_present_but_empty :
  let body := JObj [("message", JStr EmptyString); ("error", JStr "quota exhausted")] in
  get body "message" = JStr EmptyString ∧
  ∃ e, handleError (http_failure 402 body ∅) = Thrown e ∧
       message e = "quota exhausted" ∧
       ToString (message_policy body) ≠ Some (message e).
Proof.
  split; [reflexivity|]. eexists. split; [reflexivity|]. split; [reflexivity|].
  discriminate.
Qed.

(** X26. Every HTTP 429 failure that reaches the status switch, and whose
    body message converts to a string, becomes a [RateLimitError]. It
    carries the [retry-after] header read by [parseInt]: a header that is
    the decimal numeral of [n] gives [retryAfter = n], header [30] gives
    30, any header that is not empty gives what [parseInt] makes of it, and
    without the header [retryAfter] is [undefined]. *)
Theorem handleError_rate_limit :
  (∀ error response,
     no_transport_code error →
     Axios.response error = Some response →
     Axios.status response = 429 →
     message_converts error →
     ∃ e, handleError error = Thrown e ∧
          error_kind e = Some RateLimit ∧
          (∀ n, Axios.headers response !! "retry-after" = Some (decimal n) →
                retryAfter e = Some (Num n)) ∧
          (Axios.headers response !! "retry-after" = None → retryAfter e = None) ∧
          (∀ text, Axios.headers response !! "retry-after" = Some text →
                   text ≠ EmptyString → retryAfter e = Some (parseInt text))) ∧
  (∀ body, is_Some (ToString (first_truthy body)) →
     ∃ e, handleError (http_failure 429 body {[ "retry-after" := "30" ]}) = Thrown e ∧
          error_kind e = Some RateLimit ∧ retryAfter e = Some (Num 30)).
Proof.
  assert (∀ error response,
     no_transport_code error →
     Axios.response error = Some response →
     Axios.status response = 429 →
     message_converts error →
     ∃ e, handleError error = Thrown e ∧
          error_kind e = Some RateLimit ∧
          retryAfter e = parse_retryAfter (Axios.headers response !! "retry-after"))
    as Hgeneral.
  { intros error response Hcode Hresponse Hstatus Hconv.
    unfold no_transport_code, message_converts in *.
    classifier_cases error; simplify_eq; simpl in *; simplify_eq;
      try converts_or_absurd Hconv; eauto. }
  split.
  - intros error response Hcode Hresponse Hstatus Hconv.
    destruct (Hgeneral error response) as (e & He & Hkind & Hretry); [done..|].
    exists e. repeat split; [done..| | |].
    + intros n Hn. by rewrite Hretry, Hn; simpl; rewrite decimal_truthy, parseInt_decimal.
    + intros Hn. by rewrite Hretry, Hn.
    + intros text Htext Hfilled. rewrite Hretry, Htext. by destruct text.
  - intros body Hbody.
    destruct (Hgeneral (http_failure 429 body {[ "retry-after" := "30" ]}) _
                eq_refl eq_refl eq_refl) as (e & He & Hkind & Hretry).
    + intros response [= <-]. simpl. by rewrite extract_message_first_truthy.
    + exists e. by repeat split.
Qed.

Lemma handleError_rate_limit_witness :
  ∃ e, handleError (http_failure 429 (JObj [("message", JStr "slow down")])
                      {[ "retry-after" := "120" ]}) = Thrown e ∧
       error_kind e = Some RateLimit ∧
       (∀ n, "120" = decimal n → retryAfter e = Some (Num n)) ∧
       retryAfter e = Some (Num 120).
Proof.
  destruct (proj1 handleError_rate_limit
              (http_failure 429 (JObj [("message", JStr "slow down")])
                 {[ "retry-after" := "120" ]}) _ eq_refl eq_refl eq_refl)
    as (e & He & Hkind & Hsome & Hnone & Hany).
  - intros response [= <-]. vm_compute. eauto.
  - exists e. repeat split; [done..| |].
    + intros n Hn. apply Hsome. vm_compute. by f_equal.
    + apply (Hsome 120). reflexivity.
Defined.

(** C6. Not every HTTP 429 failure becomes a RateLimit error: with the
    header [retry-after: 30] and a body whose [message] is an object with a
    [toString] property of its own that is no function, the constructor of
    [RateLimitError] throws a TypeError on converting the message, and the
    classifier lets it escape; no error carries the 30 seconds. *)
Lemma handleError_rate_limit_lost :
  let failure :=
    http_failure 429 (JObj [("message", JObj [("toString", JNull)])])
      {[ "retry-after" := "30" ]} in
  no_transport_code failure ∧
  classification_table failure = RateLimit ∧
  handleError failure = TypeError ∧
  ¬ ∃ e, handleError failure = Thrown e ∧ retryAfter e = Some (Num 30).
Proof.
  repeat split. by intros (e & He & _).
Qed.

(** X25. The classifier is a function of the failure alone, and it yields
    a classified error exactly for the failures that carry a transport code
    or whose chosen body message converts to a string, whatever the status
    and the headers, a [retry-after] header that is no number included. That
    covers every failure without a response, every body that is not an
    object, and every body whose [message] and [error] fields are strings,
    numbers, booleans, [null] or missing. *)
Theorem handleError_total_on_convertible_messages :
  (∀ error, message_converts error →
     ∃ e, handleError error = Thrown e ∧ is_Some (error_kind e)) ∧
  (∀ error, (∃ e, handleError error = Thrown e) ↔
            (¬ no_transport_code error ∨ message_converts error)) ∧
  (∀ error, Axios.response error = None → message_converts error) ∧
  (∀ error,
     (∀ response props, Axios.response error = Some response →
        Axios.data response ≠ JObj props) →
     message_converts error) ∧
  (∀ error,
     (∀ response, Axios.response error = Some response →
        is_primitive (get_optional (Axios.data response) "message") = true ∧
        is_primitive (get_optional (Axios.data response) "error") = true) →
     message_converts error).
Proof.
  split; [|split; [|repeat split]].
  - intros error Hconv. pose proof (handleError_throws error Hconv) as [e He].
    exists e. split; [done|]. apply handleError_status in He.
    by destruct (error_kind e).
  - intros error. split.
    + intros [e He]. unfold no_transport_code, message_converts.
      revert He. classifier_cases error; intros He; try discriminate He.
      all: try (left; discriminate).
      all: right; intros response' Hresponse'; simplify_eq; simpl; eauto.
    + intros [Hcode|Hconv]; [|by apply handleError_throws].
      unfold no_transport_code in Hcode.
      classifier_cases error; try (by destruct Hcode); by eexists.
  - intros error Hnone response Hsome. congruence.
  - intros error Hbody response Hsome.
    rewrite extract_message_first_truthy, first_truthy_not_object; [by eexists|].
    intros props. by apply (Hbody response).
  - intros error Hfields response Hsome.
    destruct (Hfields response Hsome) as [Hm He].
    rewrite extract_message_first_truthy.
    by apply ToString_primitive, first_truthy_primitive.
Qed.

Lemma handleError_total_on_convertible_messages_witness :
  (∃ e, handleError {| Axios.code := None; Axios.message := EmptyString;
                       Axios.response := None |} = Thrown e ∧
        is_Some (error_kind e)) ∧
  (∃ e, handleError (http_failure 429 (JStr "<html>Too many requests</html>")
                       {[ "retry-after" := "soon" ]}) = Thrown e ∧
        is_Some (error_kind e)).
Proof.
  destruct handleError_total_on_convertible_messages
    as (Htotal & _ & Hnone & Hbody & _).
  split; apply Htotal.
  - by apply Hnone.
  - apply Hbody. by intros response props [= <-].
Defined.

(** C8. The classifier is not total: it fails itself on an HTTP 500 whose
    body has for [message] an object with a [toString] property of its own
    that is no function. The constructor of the error, which is declared to
    take a string, converts the message and throws a TypeError, and no
    classified error comes out. *)
Lemma handleError_fails_on_unconvertible_message :
  handleError (http_failure 500
                 (JObj [("message", JObj [("toString", JNull)])]) ∅) = TypeError ∧
  ¬ ∃ e, handleError (http_failure 500
                        (JObj [("message", JObj [("toString", JNull)])]) ∅)
         = Thrown e.
Proof. split; [reflexivity|]. by intros [e He]. Qed.

(** ** The executor *)

Lemma terminal_is_client_error error e k :
  handleError error = Thrown e → error_kind e = Some k → terminal_kind k = true →
  is_client_error (Thrown e) = true.
Proof.
  intros Hthrown Hkind Hterminal. apply handleError_status in Hthrown.
  rewrite Hkind in Hthrown. unfold is_client_error. simpl.
  destruct k; try discriminate; by rewrite Hthrown.
Qed.

Lemma retried_is_not_client_error error e :
  handleError error = Thrown e → retried e = true →
  is_client_error (Thrown e) = false.
Proof.
  intros Hthrown Hretried. apply handleError_status in Hthrown.
  unfold retried in Hretried. unfold is_client_error. simpl.
  destruct (error_kind e) as [[]|]; try discriminate;
    try (by rewrite Hthrown).
  destruct Hthrown as (s & Hs & _). rewrite Hs in *.
  destruct (400 <=? s), (s <? 500); simpl in *; try discriminate;
    by rewrite ?andb_false_r.
Qed.

(** A generic API error keeps the status of the response, so the executor
    takes one with a 4xx status for a client error. *)
Lemma unclassified_client_error error e s :
  handleError error = Thrown e →
  error_kind e = Some Unclassified →
  status e = Some s →
  400 ≤ s < 500 →
  is_client_error (Thrown e) = true.
Proof.
  intros Hthrown Hkind Hstatus Hrange. apply handleError_status in Hthrown.
  rewrite Hkind in Hthrown. destruct Hthrown as (s' & Hs' & _ & _ & _ & Hlimit).
  assert (s' = s) as -> by congruence.
  unfold is_client_error. simpl. rewrite Hstatus.
  destruct (Z.eqb_spec s 0); [lia|]. destruct (Z.leb_spec 400 s); [|lia].
  destruct (Z.ltb_spec s 500); [|lia]. by destruct (Z.eqb_spec s 429).
Qed.

Lemma retried_failure_goes_on s : retried_failure s → goes_on s = true.
Proof.
  intros (error & e & -> & Hthrown & Hretried). simpl. rewrite Hthrown.
  by rewrite (retried_is_not_client_error _ _ Hthrown Hretried).
Qed.

Lemma goes_on_rejected s :
  goes_on s = true →
  ∃ error, s = Rejected error ∧ is_client_error (handleError error) = false.
Proof.
  destruct s as [|error]; [done|]. simpl. intros Hgo. exists error.
  split; [done|]. by destruct (is_client_error (handleError error)).
Qed.

(** *** The loop *)

Section Loop.

Context (maxRetries : Z) (server : transport) (request : AxiosRequestConfig).

Implicit Types (remaining attempt : nat) (lastError : option thrown).

(** An iteration that ends the call. *)
Lemma attempts_stop remaining attempt lastError :
  goes_on (server request attempt) = false →
  attempts maxRetries server request (S remaining) attempt lastError =
    (settle (server request attempt), [Request request]).
Proof.
  simpl. unfold client_request, goes_on, settle.
  destruct (server request attempt) as [response|error]; [done|].
  by destruct (is_client_error (handleError error)).
Qed.

(** An iteration after which the loop goes on, if the guard admits more. *)
Lemma attempts_retry remaining attempt lastError error :
  server request attempt = Rejected error →
  is_client_error (handleError error) = false →
  attempts maxRetries server request (S remaining) attempt lastError =
    let pause := if Z.of_nat attempt <? maxRetries - 1
                 then [Sleep (backoff_delay attempt)] else [] in
    let rest := attempts maxRetries server request remaining (S attempt)
                  (Some (handleError error)) in
    (rest.1, Request request :: pause ++ rest.2).
Proof.
  intros Herror Hretry. simpl. unfold client_request.
  rewrite Herror, Hretry. by destruct (attempts _ _ _ _ _ _).
Qed.

(** The run of the loop when its first [k] failures are retried and the
    attempt after them ends it: by a response, by a client error, or by
    being the last one that the guard admits. *)
Lemma attempts_run k :
  ∀ remaining attempt lastError,
    Z.of_nat attempt + Z.of_nat remaining = maxRetries →
    (k < remaining)%nat →
    (∀ i, (i < k)%nat → goes_on (server request (attempt + i)%nat) = true) →
    goes_on (server request (attempt + k)%nat) = false ∨ S k = remaining →
    attempts maxRetries server request remaining attempt lastError =
      (settle (server request (attempt + k)%nat),
       backoff_schedule request attempt k).
Proof.
  induction k as [|k IH]; intros remaining attempt lastError Hguard Hk Hfirst Hlast;
    (destruct remaining as [|remaining]; [lia|]).
  - rewrite Nat.add_0_r in *.
    destruct (goes_on (server request attempt)) eqn:Hgo;
      [|by apply attempts_stop].
    destruct Hlast as [Hstop|Hlast]; [congruence|].
    assert (remaining = 0%nat) as -> by lia.
    destruct (goes_on_rejected _ Hgo) as (error & Herror & Hretry).
    rewrite (attempts_retry _ _ _ error Herror Hretry). simpl.
    destruct (Z.ltb_spec (Z.of_nat attempt) (maxRetries - 1)); [lia|].
    by rewrite Herror.
  - pose proof (Hfirst 0%nat ltac:(lia)) as Hgo. rewrite Nat.add_0_r in Hgo.
    destruct (goes_on_rejected _ Hgo) as (error & Herror & Hretry).
    rewrite (attempts_retry _ _ _ error Herror Hretry).
    destruct (Z.ltb_spec (Z.of_nat attempt) (maxRetries - 1)); [|lia].
    rewrite (IH remaining (S attempt)); simpl.
    + by rewrite Nat.add_succ_r.
    + lia.
    + lia.
    + intros i Hi. specialize (Hfirst (S i) ltac:(lia)).
      by rewrite Nat.add_succ_r in Hfirst.
    + rewrite Nat.add_succ_r in Hlast. destruct Hlast; [by left | right; lia].
Qed.

(** Some attempt ends the loop. *)
Lemma attempts_end :
  ∀ remaining attempt, (0 < remaining)%nat →
    ∃ k, (k < remaining)%nat ∧
         (∀ i, (i < k)%nat → goes_on (server request (attempt + i)%nat) = true) ∧
         (goes_on (server request (attempt + k)%nat) = false ∨ S k = remaining).
Proof.
  induction remaining as [|remaining IH]; intros attempt Hpos; [lia|].
  destruct (goes_on (server request attempt)) eqn:Hgo.
  - destruct remaining as [|remaining].
    + exists 0%nat. repeat split; [lia | intros; lia | by right].
    + destruct (IH (S attempt) ltac:(lia)) as (k & Hk & Hfirst & Hlast).
      exists (S k). repeat split; [lia| |].
      * intros [|i] Hi; [by rewrite Nat.add_0_r|].
        rewrite Nat.add_succ_r. apply (Hfirst i). lia.
      * rewrite Nat.add_succ_r. destruct Hlast; [by left | right; lia].
  - exists 0%nat. rewrite Nat.add_0_r. repeat split; [lia | intros; lia | by left].
Qed.

(** Every request of the loop is the one it was given. *)
Lemma attempts_requests_carry :
  ∀ remaining attempt lastError,
    requests_carry (data request)
      (attempts maxRetries server request remaining attempt lastError).2.
Proof.
  unfold requests_carry.
  induction remaining as [|remaining IH]; intros attempt lastError;
    [by constructor|].
  destruct (goes_on (server request attempt)) eqn:Hgo.
  - destruct (goes_on_rejected _ Hgo) as (error & Herror & Hretry).
    rewrite (attempts_retry _ _ _ error Herror Hretry). simpl.
    constructor; [done|]. apply Forall_app. split; [|apply IH].
    destruct (_ <? _); by repeat constructor.
  - rewrite attempts_stop by done. by repeat constructor.
Qed.

Lemma requests_made_backoff_schedule from failures :
  requests_made (backoff_schedule request from failures) = S failures.
Proof.
  revert from. induction failures as [|k IH]; intros from; [done|].
  simpl. by rewrite IH.
Qed.

Lemma delays_backoff_schedule from failures :
  delays (backoff_schedule request from failures) =
  backoff_delay <$> seq from failures.
Proof.
  revert from. induction failures as [|k IH]; intros from; [done|].
  unfold delays in *. simpl. by rewrite IH.
Qed.

End Loop.

Lemma makeRequest_attempts this server method endpoint body params n :
  config_maxRetries (config this) = Some n →
  makeRequest this server method endpoint body params =
  attempts n server
    {| method := method; url := endpoint; data := body; params := params |}
    (Z.to_nat n) 0 None.
Proof. intros Hn. unfold makeRequest. by rewrite Hn. Qed.

Lemma makeRequest_requests_carry this server method endpoint body params :
  requests_carry body (makeRequest this server method endpoint body params).2.
Proof.
  unfold makeRequest. destruct (config_maxRetries (config this)) as [n|].
  - apply (attempts_requests_carry n server
             {| method := method; url := endpoint; data := body; params := params |}).
  - by constructor.
Qed.

(** *** What the executor guarantees *)

(** C1, as the code has it. When every attempt fails with a retried error
    (RateLimit, Server, Network, Timeout, or a generic API error whose
    status is not a 4xx), the executor makes [maxRetries] attempts, sleeps
    2^i * 1000 ms after attempt i for every i but the last, and raises the
    classification of the last failure. A response after k retried
    failures ends the call after k such sleeps. A generic API error whose
    status is a 4xx is raised at once, on the attempt that meets it, without
    a further sleep or request. With [maxRetries = 1] any failure is raised
    after one attempt and no sleep. *)
Theorem makeRequest_backoff this server method endpoint body params n :
  config_maxRetries (config this) = Some n →
  1 ≤ n →
  let request := {| method := method; url := endpoint; data := body; params := params |} in
  let run := makeRequest this server method endpoint body params in
  ((∀ i, (i < Z.to_nat n)%nat → retried_failure (server request i)) →
     run.2 = backoff_schedule request 0 (Z.to_nat n - 1) ∧
     requests_made run.2 = Z.to_nat n ∧
     delays run.2 = (λ i, 2 ^ Z.of_nat i * 1000) <$> seq 0 (Z.to_nat n - 1) ∧
     ∃ error, server request (Z.to_nat n - 1)%nat = Rejected error ∧
              run.1 = Raised (Some (handleError error))) ∧
  (∀ (k : nat) response,
     Z.of_nat k < n →
     (∀ i, (i < k)%nat → retried_failure (server request i)) →
     server request k = Fulfilled response →
     run = (Returned (Axios.data response), backoff_schedule request 0 k) ∧
     delays run.2 = (λ i, 2 ^ Z.of_nat i * 1000) <$> seq 0 k) ∧
  (n = 1 →
   ∀ error, server request 0%nat = Rejected error →
     run = (Raised (Some (handleError error)), [Request request])) ∧
  (∀ (k : nat) error e s,
     Z.of_nat k < n →
     (∀ i, (i < k)%nat → retried_failure (server request i)) →
     server request k = Rejected error →
     handleError error = Thrown e →
     error_kind e = Some Unclassified →
     status e = Some s →
     400 ≤ s < 500 →
     run = (Raised (Some (Thrown e)), backoff_schedule request 0 k) ∧
     requests_made run.2 = S k ∧
     delays run.2 = (λ i, 2 ^ Z.of_nat i * 1000) <$> seq 0 k).
Proof.
  intros Hn Hpos request run. subst run.
  rewrite (makeRequest_attempts _ _ _ _ _ _ n Hn). fold request.
  assert (∀ k : nat, Z.of_nat k < n →
            (∀ i, (i < k)%nat → retried_failure (server request i)) →
            goes_on (server request k) = false ∨ S k = Z.to_nat n →
            attempts n server request (Z.to_nat n) 0 None =
              (settle (server request k), backoff_schedule request 0 k)) as Hrun.
  { intros k Hk Hfirst Hlast.
    apply (attempts_run n server request k); [lia|lia| |done].
    intros i Hi. by apply retried_failure_goes_on, Hfirst. }
  split; [|split; [|split]].
  - intros Hall.
    destruct (Hall (Z.to_nat n - 1)%nat ltac:(lia)) as (error & e & Herror & _).
    rewrite (Hrun (Z.to_nat n - 1)%nat); [|lia| |right; lia].
    + simpl. rewrite requests_made_backoff_schedule, delays_backoff_schedule.
      repeat split; [lia|]. exists error. by rewrite Herror.
    + intros i Hi. apply Hall. lia.
  - intros k response Hk Hfirst Hresponse.
    rewrite (Hrun k); [|done|done|left; by rewrite Hresponse].
    simpl. by rewrite Hresponse, delays_backoff_schedule.
  - intros -> error Herror.
    rewrite (Hrun 0%nat); [|lia| |by right].
    + simpl. by rewrite Herror.
    + intros i Hi. lia.
  - intros k error e s Hk Hfirst Herror Hthrown Hkind Hstatus Hrange.
    pose proof (unclassified_client_error error e s Hthrown Hkind Hstatus Hrange)
      as Hclient.
    rewrite (Hrun k); [|done|done|left].
    + simpl. rewrite requests_made_backoff_schedule, delays_backoff_schedule.
      by rewrite Herror; simpl; rewrite Hthrown.
    + rewrite Herror. simpl. by rewrite Hthrown, Hclient.
Qed.

Lemma makeRequest_backoff_witness :
  let this := new_HashubVector (only_apiKey "key") in
  let server := always_rejects (http_failure 503 JNull ∅) in
  let request := {| method := GET; url := "/models"; data := JUndefined; params := None |} in
  let run := makeRequest this server GET "/models" JUndefined None in
  run.2 = [Request request; Sleep 1000; Request request; Sleep 2000; Request request] ∧
  requests_made run.2 = 3%nat ∧
  delays run.2 = [1000; 2000] ∧
  ∃ error, server request 2%nat = Rejected error ∧
           run.1 = Raised (Some (handleError error)).
Proof.
  intros this server request run.
  apply (proj1 (makeRequest_backoff this server GET "/models" JUndefined None 3
                  eq_refl ltac:(lia))).
  intros i Hi. eexists _, _. repeat split; reflexivity.
Defined.

(** C1 as stated fails: a generic API error with a 4xx status is not
    retried. Three attempts are allowed, one is made. *)
Lemma generic_client_error_is_not_retried :
  let this := new_HashubVector (only_apiKey "key") in
  let failure := http_failure 404 (JObj [("error", JStr "no such model")]) ∅ in
  let request := {| method := GET; url := "/models"; data := JUndefined; params := None |} in
  let run := makeRequest this (always_rejects failure) GET "/models" JUndefined None in
  config_maxRetries (config this) = Some 3 ∧
  (∃ e, handleError failure = Thrown e ∧ error_kind e = Some Unclassified) ∧
  run.2 = [Request request] ∧
  run.2 ≠ backoff_schedule request 0 2.
Proof.
  repeat split; [by eexists | discriminate].
Qed.

(** C2. A failure classified as Authentication, QuotaExceeded or Validation
    ends the call where it occurs: the classified error is raised with no
    further request and no sleep after it. When it is the first failure of
    a call, the call makes exactly one request and never sleeps. *)
Theorem makeRequest_terminal this server method endpoint body params n error e kind :
  config_maxRetries (config this) = Some n →
  1 ≤ n →
  handleError error = Thrown e →
  error_kind e = Some kind →
  terminal_kind kind = true →
  let request := {| method := method; url := endpoint; data := body; params := params |} in
  let run := makeRequest this server method endpoint body params in
  (server request 0%nat = Rejected error →
     run = (Raised (Some (Thrown e)), [Request request]) ∧
     requests_made run.2 = 1%nat ∧ delays run.2 = []) ∧
  (∀ k : nat,
     Z.of_nat k < n →
     (∀ i, (i < k)%nat → retried_failure (server request i)) →
     server request k = Rejected error →
     run = (Raised (Some (Thrown e)), backoff_schedule request 0 k) ∧
     requests_made run.2 = S k).
Proof.
  intros Hn Hpos Hthrown Hkind Hterminal request run.
  assert (∀ k : nat,
     Z.of_nat k < n →
     (∀ i, (i < k)%nat → retried_failure (server request i)) →
     server request k = Rejected error →
     run = (Raised (Some (Thrown e)), backoff_schedule request 0 k)) as Hstop.
  { intros k Hk Hfirst Herror. subst run.
    rewrite (makeRequest_attempts _ _ _ _ _ _ n Hn). fold request.
    rewrite (attempts_run n server request k); [|lia|lia| |left].
    - rewrite Nat.add_0_l, Herror. unfold settle. by rewrite Hthrown.
    - intros i Hi. by apply retried_failure_goes_on, Hfirst.
    - rewrite Nat.add_0_l, Herror. unfold goes_on. rewrite Hthrown.
      by rewrite (terminal_is_client_error _ _ _ Hthrown Hkind Hterminal). }
  split.
  - intros Herror. rewrite (Hstop 0%nat); [done|lia| |done]. intros i Hi. lia.
  - intros k Hk Hfirst Herror. rewrite (Hstop k) by done.
    split; [done|]. apply requests_made_backoff_schedule.
Qed.

Lemma makeRequest_terminal_witness :
  let this := new_HashubVector (with_maxRetries "key" 5) in
  let failure := http_failure 401 (JObj [("message", JStr "bad key")]) ∅ in
  let request := {| method := POST; url := "/similarity"; data := JNull; params := None |} in
  let run := makeRequest this (always_rejects failure) POST "/similarity" JNull None in
  ∃ e, handleError failure = Thrown e ∧
       run = (Raised (Some (Thrown e)), [Request request]) ∧
       requests_made run.2 = 1%nat ∧ delays run.2 = [].
Proof.
  intros this failure request run. eexists. split; [reflexivity|].
  apply (proj1 (makeRequest_terminal this (always_rejects failure) POST "/similarity"
                  JNull None 5 failure _ Authentication
                  eq_refl ltac:(lia) eq_refl eq_refl eq_refl)).
  reflexivity.
Defined.

(** X24. A call (with [maxRetries] at least 1) makes between 1 and
    [maxRetries] attempts, every one before the last a failure, and ends as
    its last attempt does: with the data of the response, or by raising
    what the classifier makes of the failure. So when all attempts fail the
    call raises the classification of the last failure, and no failure
    becomes a result. When the classifier converts the message of every
    failure, the call returns a result or raises a classified error, one of
    the two. *)
Theorem makeRequest_outcome this server method endpoint body params n :
  config_maxRetries (config this) = Some n →
  1 ≤ n →
  let request := {| method := method; url := endpoint; data := body; params := params |} in
  let run := makeRequest this server method endpoint body params in
  (∃ last : nat,
     Z.of_nat last < n ∧
     requests_made run.2 = S last ∧
     (∀ i, (i < last)%nat → ∃ error, server request i = Rejected error) ∧
     match server request last with
     | Fulfilled response => run.1 = Returned (Axios.data response)
     | Rejected error => run.1 = Raised (Some (handleError error))
     end) ∧
  ((∀ i error, server request i = Rejected error → message_converts error) →
   (∃ data, run.1 = Returned data) ∨ (∃ e, run.1 = Raised (Some (Thrown e)))).
Proof.
  intros Hn Hpos request run. subst run.
  rewrite (makeRequest_attempts _ _ _ _ _ _ n Hn). fold request.
  destruct (attempts_end server request (Z.to_nat n) 0%nat ltac:(lia))
    as (last & Hlast & Hfirst & Hstop).
  rewrite (attempts_run n server request last (Z.to_nat n) 0 None);
    [|lia|done|done|done].
  simpl in *. split.
  - exists last. rewrite requests_made_backoff_schedule.
    repeat split; [lia| |].
    + intros i Hi.
      destruct (goes_on_rejected _ (Hfirst i Hi)) as (error & Herror & _).
      by exists error.
    + by destruct (server request last).
  - intros Hconv. destruct (server request last) as [response|error] eqn:Hsettle.
    + left. by eexists.
    + right. destruct (handleError_throws error (Hconv _ _ Hsettle)) as [e He].
      exists e. simpl. by rewrite He.
Qed.

Lemma makeRequest_outcome_witness :
  let this := new_HashubVector (only_apiKey "key") in
  let server : transport :=
    λ _ i, if (i <? 1)%nat
           then Rejected (http_failure 503 JNull ∅)
           else Fulfilled {| Axios.status := 200;
                             Axios.data := JObj [("models", JArr [])];
                             Axios.headers := ∅ |} in
  let request := {| method := GET; url := "/models"; data := JUndefined; params := None |} in
  let run := makeRequest this server GET "/models" JUndefined None in
  (∃ last : nat,
     Z.of_nat last < 3 ∧
     requests_made run.2 = S last ∧
     (∀ i, (i < last)%nat → ∃ error, server request i = Rejected error) ∧
     match server request last with
     | Fulfilled response => run.1 = Returned (Axios.data response)
     | Rejected error => run.1 = Raised (Some (handleError error))
     end) ∧
  ((∃ data, run.1 = Returned data) ∨ (∃ e, run.1 = Raised (Some (Thrown e)))).
Proof.
  intros this server request run.
  destruct (makeRequest_outcome this server GET "/models" JUndefined None 3
              eq_refl ltac:(lia)) as [Hlast Hone].
  split; [exact Hlast|]. apply Hone.
  intros i error. unfold server. destruct (i <? 1)%nat; [|done].
  intros [= <-] response [= <-]. vm_compute. eauto.
Defined.

(** Outside the domain of the specification: with a [maxRetries] below 1,
    or [undefined], the guard of the loop fails at once, no request is
    made, and [throw lastError!] raises [undefined]. *)
Lemma makeRequest_without_attempts this server method endpoint body params :
  match config_maxRetries (config this) with
  | Some n => n ≤ 0
  | None => True
  end →
  makeRequest this server method endpoint body params = (Raised None, []).
Proof.
  unfold makeRequest. destruct (config_maxRetries (config this)) as [n|]; [|done].
  intros Hn. by replace (Z.to_nat n) with 0%nat by lia.
Qed.

(** C4. A call can end with neither a result nor a classified error. When
    the service answers every attempt with an HTTP 500 whose body has for
    [message] an object with a [toString] property of its own that is no
    function, all attempts fail, and what the call raises is the TypeError
    that escaped the classifier, not the classified error (a ServerError)
    of the last failure. *)
Example unconvertible_message_call :
  let failure := http_failure 500 (JObj [("message", JObj [("toString", JNull)])]) ∅ in
  let request := {| method := GET; url := "/usage"; data := JUndefined; params := None |} in
  let run := makeRequest (new_HashubVector (with_maxRetries "key" 2))
               (always_rejects failure) GET "/usage" JUndefined None in
  classification_table failure = Server ∧
  run = (Raised (Some TypeError), [Request request; Sleep 1000; Request request]) ∧
  (¬ ∃ data, run.1 = Returned data) ∧
  (¬ ∃ e, run.1 = Raised (Some (Thrown e))).
Proof.
  repeat split; [by intros [data Hdata] | by intros [e He]].
Qed.

(** ** The constructor *)

(** C7. A configuration that sets only [apiKey] is stored with the
    documented defaults: base URL, timeout 30000, maxRetries 3, no extra
    header. A property that the configuration supplies replaces the default,
    and one that it leaves out keeps it. *)
Theorem constructor_defaults :
  (∀ key,
     config (new_HashubVector
               {| apiKey := key; baseUrl := Missing; timeout := Missing;
                  maxRetries := Missing; headers := Missing |}) =
     {| config_apiKey := key;
        config_baseUrl := Some "https://api.vector.hashub.dev";
        config_timeout := Some 30000;
        config_maxRetries := Some 3;
        config_headers := Some ∅ |}) ∧
  (∀ cfg,
     let stored := config (new_HashubVector cfg) in
     config_apiKey stored = apiKey cfg ∧
     (∀ v, baseUrl cfg = Own v → config_baseUrl stored = v) ∧
     (∀ v, timeout cfg = Own v → config_timeout stored = v) ∧
     (∀ v, maxRetries cfg = Own v → config_maxRetries stored = v) ∧
     (∀ v, headers cfg = Own v → config_headers stored = v) ∧
     (baseUrl cfg = Missing →
        config_baseUrl stored = Some "https://api.vector.hashub.dev") ∧
     (timeout cfg = Missing → config_timeout stored = Some 30000) ∧
     (maxRetries cfg = Missing → config_maxRetries stored = Some 3) ∧
     (headers cfg = Missing → config_headers stored = Some ∅)).
Proof.
  split; [done|]. intros cfg stored. subst stored. simpl.
  repeat split; try done; first [intros v Hv | intros Hv]; by rewrite Hv.
Qed.

Lemma constructor_defaults_witness :
  let cfg := {| apiKey := "hh_live_key"; baseUrl := Own (Some "https://vector.hashub.dev");
                timeout := Own (Some 5000); maxRetries := Own (Some 5);
                headers := Missing |} in
  config (new_HashubVector cfg) =
  {| config_apiKey := "hh_live_key";
     config_baseUrl := Some "https://vector.hashub.dev";
     config_timeout := Some 5000;
     config_maxRetries := Some 5;
     config_headers := Some ∅ |}.
Proof.
  intros cfg.
  destruct (proj2 constructor_defaults cfg)
    as (Hkey & Hurl & Htimeout & Hretries & _ & _ & _ & _ & Hheaders).
  specialize (Hurl _ eq_refl). specialize (Htimeout _ eq_refl).
  specialize (Hretries _ eq_refl). specialize (Hheaders eq_refl).
  destruct (config (new_HashubVector cfg)); simpl in *. by subst.
Defined.

(** C9, as the code has it. The headers that the client registers with
    the transport, which go with every request it issues, carry
    [Authorization: Bearer <apiKey>] whenever the custom headers do not
    define [Authorization] themselves; other custom headers leave it alone.
    A custom [Authorization] header takes its place. *)
Theorem authorization_header cfg :
  let sent := instance_headers (client (new_HashubVector cfg)) in
  (extra_headers cfg !! "Authorization" = None →
     sent !! "Authorization" = Some ("Bearer " +:+ apiKey cfg)) ∧
  (∀ value, extra_headers cfg !! "Authorization" = Some value →
     sent !! "Authorization" = Some value) ∧
  (∀ name value, extra_headers cfg !! name = Some value →
     sent !! name = Some value).
Proof.
  intros sent. subst sent. unfold extra_headers. simpl. unfold default_headers.
  assert (∀ custom : gmap string string,
            default ∅ (config_headers (merge_config cfg)) = custom →
            match headers cfg with
            | Own (Some h) => h
            | _ => ∅
            end = custom) as Hcustom.
  { intros custom <-. simpl. by destruct (headers cfg) as [|[]]. }
  rewrite (Hcustom _ eq_refl). clear Hcustom.
  generalize (default ∅ (config_headers (merge_config cfg))). intros custom.
  repeat split.
  - intros Hnone. rewrite lookup_union_r by done. by rewrite lookup_insert_eq.
  - intros value Hvalue. by rewrite (lookup_union_Some_l _ _ _ _ Hvalue).
  - intros name value Hvalue. by rewrite (lookup_union_Some_l _ _ _ _ Hvalue).
Qed.

Lemma authorization_header_witness :
  let cfg := {| apiKey := "hh_live_key"; baseUrl := Missing; timeout := Missing;
                maxRetries := Missing;
                headers := Own (Some {[ "X-Custom-Header" := "value" ]}) |} in
  instance_headers (client (new_HashubVector cfg)) !! "Authorization"
  = Some "Bearer hh_live_key".
Proof.
  intros cfg. apply (proj1 (authorization_header cfg)). by vm_compute.
Defined.

(** C9 as stated fails: custom headers are spread after the client's
    own, so a custom [Authorization] header wins. *)
Lemma custom_authorization_header_wins :
  let cfg := {| apiKey := "hh_live_key"; baseUrl := Missing; timeout := Missing;
                maxRetries := Missing;
                headers := Own (Some {[ "Authorization" := "Basic dXNlcjpwdw==" ]}) |} in
  instance_headers (client (new_HashubVector cfg)) !! "Authorization"
    = Some "Basic dXNlcjpwdw==" ∧
  instance_headers (client (new_HashubVector cfg)) !! "Authorization"
    ≠ Some ("Bearer " +:+ apiKey cfg).
Proof. split; [by vm_compute | by vm_compute]. Qed.

(** ** The operations *)

(** C10. [vectorize], [vectorizeBatch] and [similarity] send a body whose
    [model] is the model of the request when it names one and ['e5_base']
    when it names none, in every request that the call issues. *)
Theorem default_model_substituted this server :
  (∀ request,
     let body := vectorize_body request in
     vectorize this server request = makeRequest this server POST "/vectorize" body None ∧
     requests_carry body (vectorize this server request).2 ∧
     get body "model" =
       JStr (match model request with Some m => model_name m | None => "e5_base" end)) ∧
  (∀ request,
     let body := vectorizeBatch_body request in
     vectorizeBatch this server request
       = makeRequest this server POST "/vectorize-batch" body None ∧
     requests_carry body (vectorizeBatch this server request).2 ∧
     get body "model" =
       JStr (match batch_model request with
             | Some m => model_name m | None => "e5_base" end)) ∧
  (∀ request,
     let body := similarity_body request in
     similarity this server request = makeRequest this server POST "/similarity" body None ∧
     requests_carry body (similarity this server request).2 ∧
     get body "model" =
       JStr (match similarity_model request with
             | Some m => model_name m | None => "e5_base" end)).
Proof.
  repeat split; try apply makeRequest_requests_carry.
  - unfold vectorize_body. by destruct (model request) as [[]|].
  - unfold vectorizeBatch_body. by destruct (batch_model request) as [[]|].
  - unfold similarity_body. by destruct (similarity_model request) as [[]|].
Qed.

(** * Further properties *)

(** ** The classifier and the error classes *)

(** X1. The [code] of a classified error and its class tell each other:
    every class has a code string of its own. *)
Theorem error_code_tells_class :
  (∀ error e, handleError error = Thrown e →
     ∃ k, error_kind e = Some k ∧ code e = Some (code_of_kind k)) ∧
  (∀ k1 k2, code_of_kind k1 = code_of_kind k2 → k1 = k2).
Proof.
  split.
  - intros error e.
    classifier_cases error; intros Heq; inversion Heq; subst; clear Heq;
      by eexists.
  - by intros [] [].
Qed.

Lemma error_code_tells_class_witness :
  ∃ k, error_kind {| name := "ServerError"; message := "upstream down";
                     code := Some "SERVER_ERROR"; status := Some 500;
                     details := JUndefined; retryAfter := None |} = Some k ∧
       Some "SERVER_ERROR" = Some (code_of_kind k).
Proof.
  apply (proj1 error_code_tells_class
           (http_failure 503 (JObj [("message", JStr "upstream down")]) ∅)).
  reflexivity.
Defined.

(** X2. The [status] of an error made from an HTTP response is the status
    of the response, except that 502, 503 and 504 are reported as 500; and
    only the generic error keeps the body, as [details]. *)
Theorem handleError_status_and_details error response e :
  no_transport_code error →
  Axios.response error = Some response →
  handleError error = Thrown e →
  let s := Axios.status response in
  status e = Some (if (s =? 502) || (s =? 503) || (s =? 504) then 500 else s) ∧
  details e = match classification_table error with
              | Unclassified => Axios.data response
              | _ => JUndefined
              end.
Proof.
  intros Hcode Hresponse. unfold no_transport_code, classification_table in *.
  classifier_cases error; simplify_eq; simpl in *; intros Heq; inversion Heq; subst;
    clear Heq; try (split; reflexivity).
  other_status. split; [|reflexivity].
  by repeat (match goal with
             | |- context [?a =? ?b] => destruct (Z.eqb_spec a b); [congruence|]
             end; simpl).
Qed.

Lemma handleError_status_and_details_witness :
  ∃ e, handleError (http_failure 503 (JObj [("message", JStr "busy")]) ∅) = Thrown e ∧
       status e = Some 500 ∧ details e = JUndefined.
Proof.
  eexists. split; [reflexivity|].
  apply (handleError_status_and_details
           (http_failure 503 (JObj [("message", JStr "busy")]) ∅) _ _
           eq_refl eq_refl eq_refl).
Defined.

(** X3. A failure that carries a transport code is classified by the code
    alone: the response, its body and the message of the failure play no
    part, and the error has a fixed message and no status. Without a code
    and without a response the error is a [NetworkError] with the message of
    the failure, or ["Network error"] when that message is empty. *)
Theorem handleError_transport_failures error :
  (code_among error ["ECONNABORTED"; "ETIMEDOUT"] = true →
     handleError error =
       Thrown {| name := "TimeoutError"; message := "Request timeout";
                 code := Some "TIMEOUT_ERROR"; status := None;
                 details := JUndefined; retryAfter := None |}) ∧
  (code_among error ["ECONNABORTED"; "ETIMEDOUT"] = false →
   code_among error ["ENOTFOUND"; "ECONNREFUSED"] = true →
     handleError error =
       Thrown {| name := "NetworkError"; message := "Network connection error";
                 code := Some "NETWORK_ERROR"; status := None;
                 details := JUndefined; retryAfter := None |}) ∧
  (no_transport_code error → Axios.response error = None →
     handleError error =
       Thrown {| name := "NetworkError";
                 message := if string_truthy (Axios.message error)
                            then Axios.message error else "Network error";
                 code := Some "NETWORK_ERROR"; status := None;
                 details := JUndefined; retryAfter := None |}).
Proof.
  unfold no_transport_code.
  repeat split; intros; classifier_cases error; simplify_eq; done.
Qed.

Lemma handleError_transport_failures_witness :
  handleError {| Axios.code := Some "ECONNABORTED";
                 Axios.message := "timeout of 30000ms exceeded";
                 Axios.response :=
                   Some {| Axios.status := 401;
                           Axios.data := JObj [("message", JObj [("toString", JNull)])];
                           Axios.headers := ∅ |} |} =
  Thrown {| name := "TimeoutError"; message := "Request timeout";
            code := Some "TIMEOUT_ERROR"; status := None;
            details := JUndefined; retryAfter := None |}.
Proof.
  by apply (proj1 (handleError_transport_failures _)).
Defined.

(** X4. The default message of an error class replaces [undefined] only:
    any other argument, the empty string included, becomes the message,
    converted to a string. The class fixes [name], [code] and [status]
    whatever the message is, and construction fails exactly when the
    conversion of the message does. *)
Theorem error_class_defaults :
  Forall
    (λ '(new, class_name, class_code, class_status, default_text),
       new JUndefined =
         Some {| name := class_name; message := default_text;
                 code := Some class_code; status := class_status;
                 details := JUndefined; retryAfter := None |} ∧
       ∀ argument, argument ≠ JUndefined →
         new argument =
           (λ text, {| name := class_name; message := text;
                       code := Some class_code; status := class_status;
                       details := JUndefined; retryAfter := None |})
           <$> ToString argument)
    [ (new_AuthenticationError, "AuthenticationError", "AUTHENTICATION_ERROR",
       Some 401, "Invalid API key or authentication failed");
      ((λ m, new_RateLimitError m None), "RateLimitError", "RATE_LIMIT_ERROR",
       Some 429, "Rate limit exceeded");
      (new_QuotaExceededError, "QuotaExceededError", "QUOTA_EXCEEDED_ERROR",
       Some 402, "Token quota exceeded");
      (new_ValidationError, "ValidationError", "VALIDATION_ERROR",
       Some 400, "Request validation failed");
      (new_ServerError, "ServerError", "SERVER_ERROR",
       Some 500, "Internal server error");
      (new_NetworkError, "NetworkError", "NETWORK_ERROR",
       None, "Network connection error");
      (new_TimeoutError, "TimeoutError", "TIMEOUT_ERROR",
       None, "Request timeout") ].
Proof.
  repeat (apply Forall_cons_2; [split; [reflexivity|]|]); [..|apply Forall_nil_2];
    intros argument Hdefined;
    unfold new_AuthenticationError, new_RateLimitError, new_QuotaExceededError,
      new_ValidationError, new_ServerError, new_NetworkError, new_TimeoutError,
      new_HashubVectorError;
    (replace (Error_message (default_parameter argument _)) with (ToString argument)
       by (by destruct argument));
    by destruct (ToString argument).
Qed.

Lemma error_class_defaults_witness :
  new_ValidationError (JStr EmptyString) =
  Some {| name := "ValidationError"; message := EmptyString;
          code := Some "VALIDATION_ERROR"; status := Some 400;
          details := JUndefined; retryAfter := None |}.
Proof.
  pose proof error_class_defaults as Hall.
  rewrite Forall_forall in Hall.
  destruct (Hall (new_ValidationError, "ValidationError", "VALIDATION_ERROR",
                  Some 400, "Request validation failed")) as [_ Hgiven].
  - do 3 right. left.
  - by rewrite (Hgiven (JStr EmptyString)).
Defined.

(** X5. On an HTTP 429 a [retry-after] header that is not empty always
    gives a number, which is [NaN] when the header does not start with
    one, as an HTTP date does not; an empty header gives [undefined]. *)
Theorem handleError_retry_after_edges error response e :
  no_transport_code error →
  Axios.response error = Some response →
  Axios.status response = 429 →
  handleError error = Thrown e →
  (∀ text, Axios.headers response !! "retry-after" = Some text →
     text ≠ EmptyString → retryAfter e = Some (parseInt text)) ∧
  (Axios.headers response !! "retry-after" = Some EmptyString →
     retryAfter e = None) ∧
  (∀ c rest, Axios.headers response !! "retry-after" = Some (String c rest) →
     is_white_space c = false → radix_digit 10 c = None →
     c ≠ "-"%char → c ≠ "+"%char →
     retryAfter e = Some NaN).
Proof.
  intros Hcode Hresponse Hstatus. unfold no_transport_code in *.
  assert (handleError error = Thrown e →
          retryAfter e = parse_retryAfter (Axios.headers response !! "retry-after"))
    as Hretry.
  { classifier_cases error; simplify_eq; simpl in *; simplify_eq;
      intros Heq; by inversion Heq. }
  intros He. rewrite (Hretry He). repeat split.
  - intros text -> Htext. by destruct text.
  - by intros ->.
  - intros c rest -> Hspace Hdigit Hminus Hplus. simpl. f_equal.
    unfold parseInt. simpl. rewrite Hspace.
    destruct c as [[] [] [] [] [] [] [] []]; try done; simpl in *;
      by rewrite ?Hdigit.
Qed.

Lemma handleError_retry_after_edges_witness :
  ∃ e, handleError (http_failure 429 JNull
                      {[ "retry-after" := "Wed, 21 Oct 2015 07:28:00 GMT" ]}) = Thrown e ∧
       retryAfter e = Some NaN.
Proof.
  eexists. split; [reflexivity|].
  eapply (handleError_retry_after_edges
            (http_failure 429 JNull
               {[ "retry-after" := "Wed, 21 Oct 2015 07:28:00 GMT" ]}) _ _
            eq_refl eq_refl eq_refl eq_refl); [reflexivity|done..].
Defined.

(** ** The executor *)

Lemma total_delay_backoff_schedule request from failures :
  total_delay (backoff_schedule request from failures) =
  (2 ^ Z.of_nat (from + failures) - 2 ^ Z.of_nat from) * 1000.
Proof.
  revert from. induction failures as [|k IH]; intros from.
  - rewrite Nat.add_0_r. unfold total_delay. simpl. lia.
  - unfold total_delay in *. simpl. rewrite IH.
    replace (Z.of_nat (S from + k)) with (Z.of_nat (from + S k)) by lia.
    replace (Z.of_nat (S from)) with (Z.of_nat from + 1) by lia.
    rewrite Z.pow_add_r by lia. lia.
Qed.

(** The shape of every run that makes an attempt. *)
Lemma makeRequest_run this server method endpoint body params n :
  config_maxRetries (config this) = Some n →
  1 ≤ n →
  let request := {| method := method; url := endpoint; data := body; params := params |} in
  ∃ k : nat,
    (k < Z.to_nat n)%nat ∧
    (∀ i, (i < k)%nat → goes_on (server request i) = true) ∧
    (goes_on (server request k) = false ∨ S k = Z.to_nat n) ∧
    makeRequest this server method endpoint body params =
      (settle (server request k), backoff_schedule request 0 k).
Proof.
  intros Hn Hpos request.
  rewrite (makeRequest_attempts _ _ _ _ _ _ n Hn). fold request.
  destruct (attempts_end server request (Z.to_nat n) 0%nat ltac:(lia))
    as (k & Hk & Hfirst & Hstop).
  exists k. repeat split; [done..|].
  apply (attempts_run n server request k); [lia|done..].
Qed.

(** X6. Whatever the service does, a call is a run of attempts separated by
    the exponential pauses: it starts with a request, ends with a request,
    makes at most [maxRetries] of them, and sleeps (2^(r-1) - 1) seconds in
    all when it makes r requests, so never more than 2^(maxRetries-1) - 1
    seconds. *)
Theorem makeRequest_trace_shape this server method endpoint body params n :
  config_maxRetries (config this) = Some n →
  1 ≤ n →
  let request := {| method := method; url := endpoint; data := body; params := params |} in
  let trace := (makeRequest this server method endpoint body params).2 in
  (∃ k : nat, Z.of_nat k < n ∧ trace = backoff_schedule request 0 k) ∧
  (1 ≤ requests_made trace)%nat ∧
  Z.of_nat (requests_made trace) ≤ n ∧
  total_delay trace = (2 ^ (Z.of_nat (requests_made trace) - 1) - 1) * 1000 ∧
  total_delay trace ≤ (2 ^ (n - 1) - 1) * 1000.
Proof.
  intros Hn Hpos request trace. subst trace.
  destruct (makeRequest_run this server method endpoint body params n Hn Hpos)
    as (k & Hk & _ & _ & ->). fold request. simpl.
  rewrite requests_made_backoff_schedule, total_delay_backoff_schedule.
  replace (Z.of_nat (S k) - 1) with (Z.of_nat k) by lia.
  rewrite Nat.add_0_l. change (2 ^ Z.of_nat 0) with 1.
  assert (2 ^ Z.of_nat k ≤ 2 ^ (n - 1)) by (apply Z.pow_le_mono_r; lia).
  split; [exists k; split; [lia|done]|].
  repeat split; lia.
Qed.

Lemma makeRequest_trace_shape_witness :
  let trace := (makeRequest (new_HashubVector (only_apiKey "key"))
                  (always_rejects (http_failure 429 JNull ∅))
                  POST "/vectorize" JNull None).2 in
  Z.of_nat (requests_made trace) ≤ 3 ∧ total_delay trace ≤ 3000.
Proof.
  intros trace.
  destruct (makeRequest_trace_shape (new_HashubVector (only_apiKey "key"))
              (always_rejects (http_failure 429 JNull ∅))
              POST "/vectorize" JNull None 3 eq_refl ltac:(lia))
    as (_ & _ & Hrequests & _ & Hdelay).
  split; [exact Hrequests | exact Hdelay].
Defined.

(** The failures that the executor does not retry, told from the failure
    itself. *)
Lemma client_error_failure error :
  is_client_error (handleError error) = true ↔
  no_transport_code error ∧
  ∃ response, Axios.response error = Some response ∧
    400 ≤ Axios.status response < 500 ∧ Axios.status response ≠ 429 ∧
    is_Some (ToString (extract_message (Axios.data response))).
Proof.
  unfold no_transport_code. split.
  - intros Hclient. revert Hclient. unfold is_client_error.
    classifier_cases error; simpl; intros Hclient; try discriminate Hclient.
    all: split; [reflexivity|]; eexists; split; [reflexivity|]; simpl.
    all: repeat split; (lia || eauto).
  - intros [Hcode (response & Hresponse & Hrange & Hlimit & Hconv)].
    unfold is_client_error.
    classifier_cases error; simplify_eq; simpl in *; try lia;
      try reflexivity;
      match goal with
      | Hnone : ToString _ = None, Hsome : is_Some _ |- _ =>
          rewrite Hnone in Hsome; by destruct Hsome
      end.
Qed.

(** X7. A failed first attempt ends a call that may retry exactly when the
    failure is an HTTP response with a status from 400 to 499 other than
    429, without transport code, whose body message converts to a string:
    the classified error is raised at once. After every other failure the
    call sleeps one second and makes a second attempt. *)
Theorem makeRequest_gives_up_on_client_errors
    this server method endpoint body params n error :
  config_maxRetries (config this) = Some n →
  2 ≤ n →
  let request := {| method := method; url := endpoint; data := body; params := params |} in
  let run := makeRequest this server method endpoint body params in
  let client_error :=
    no_transport_code error ∧
    ∃ response, Axios.response error = Some response ∧
      400 ≤ Axios.status response < 500 ∧ Axios.status response ≠ 429 ∧
      is_Some (ToString (extract_message (Axios.data response))) in
  server request 0%nat = Rejected error →
  (client_error → run = (Raised (Some (handleError error)), [Request request])) ∧
  (¬ client_error →
     ∃ rest, run.2 = Request request :: Sleep 1000 :: Request request :: rest).
Proof.
  intros Hn Hpos request run client_error Herror. subst run client_error.
  destruct (makeRequest_run this server method endpoint body params n Hn ltac:(lia))
    as (k & Hk & Hfirst & Hstop & ->). fold request in Hfirst, Hstop |- *.
  rewrite <- client_error_failure.
  assert (goes_on (server request 0%nat)
          = negb (is_client_error (handleError error))) as Hgo
    by (by rewrite Herror).
  split.
  - intros Hclient. rewrite Hclient in Hgo.
    destruct k as [|k]; [by rewrite Herror|].
    rewrite (Hfirst 0%nat) in Hgo by lia. discriminate Hgo.
  - intros Hretry. apply not_true_is_false in Hretry. rewrite Hretry in Hgo.
    simpl in Hgo. destruct k as [|k].
    + destruct Hstop as [Hstop|Hlast]; [congruence|lia].
    + simpl. destruct k; by eexists.
Qed.

Lemma makeRequest_gives_up_on_client_errors_witness :
  let failure := http_failure 422 (JObj [("error", JStr "text too long")]) ∅ in
  let request := {| method := POST; url := "/vectorize"; data := JNull; params := None |} in
  makeRequest (new_HashubVector (only_apiKey "key")) (always_rejects failure)
    POST "/vectorize" JNull None
  = (Raised (Some (handleError failure)), [Request request]).
Proof.
  intros failure request.
  apply (proj1 (makeRequest_gives_up_on_client_errors
                  (new_HashubVector (only_apiKey "key")) (always_rejects failure)
                  POST "/vectorize" JNull None 3 failure
                  eq_refl ltac:(lia) eq_refl)).
  split; [reflexivity|]. eexists. split; [reflexivity|]. simpl.
  split; [lia|]. split; [done|]. by eexists.
Defined.

(** X8. Allowing more attempts does not change a call that came to an
    end before its attempts ran out: when a call returns data, or raises an
    error that the executor does not retry, the same call under a larger
    [maxRetries] does exactly the same. *)
Theorem makeRequest_more_retries
    this this' server method endpoint body params n n' :
  config_maxRetries (config this) = Some n →
  config_maxRetries (config this') = Some n' →
  n ≤ n' →
  let run := makeRequest this server method endpoint body params in
  ((∃ data, run.1 = Returned data) ∨
   (∃ error, run.1 = Raised (Some error) ∧ is_client_error error = true)) →
  makeRequest this' server method endpoint body params = run.
Proof.
  intros Hn Hn' Hle run Hended. subst run.
  destruct (Z.le_gt_cases n 0) as [Hnone|Hpos].
  { pose proof (makeRequest_without_attempts this server method endpoint body params)
      as Hidle.
    rewrite Hn in Hidle. rewrite (Hidle Hnone) in Hended. simpl in Hended.
    destruct Hended as [[data Hdata]|(error & Herror & _)]; discriminate. }
  destruct (makeRequest_run this server method endpoint body params n Hn ltac:(lia))
    as (k & Hk & Hfirst & Hstop & Hrun).
  rewrite Hrun in *. simpl in Hended.
  rewrite (makeRequest_attempts _ _ _ _ _ _ n' Hn').
  apply (attempts_run n' server _ k); [lia|lia|done|].
  left. rewrite Nat.add_0_l.
  destruct (server _ k) as [response|failure]; simpl in *; [done|].
  destruct Hended as [[data Hdata]|(error & [= <-] & ->)]; done.
Qed.

Lemma makeRequest_more_retries_witness :
  let server : transport :=
    λ _ i, if (i <? 1)%nat
           then Rejected (http_failure 503 JNull ∅)
           else Fulfilled {| Axios.status := 200; Axios.data := JStr "ok";
                             Axios.headers := ∅ |} in
  makeRequest (new_HashubVector (with_maxRetries "key" 7)) server GET "/usage" JUndefined None
  = makeRequest (new_HashubVector (with_maxRetries "key" 2)) server GET "/usage" JUndefined None.
Proof.
  intros server.
  apply (makeRequest_more_retries (new_HashubVector (with_maxRetries "key" 2))
           (new_HashubVector (with_maxRetries "key" 7)) server
           GET "/usage" JUndefined None 2 7 eq_refl eq_refl ltac:(lia)).
  left. by eexists.
Defined.

(** X9. A failure on which the classifier itself throws a TypeError is
    retried like a transient one: when every attempt fails so, the call
    makes all its attempts with the full backoff and raises the
    TypeError. *)
Theorem makeRequest_retries_TypeError this server method endpoint body params n :
  config_maxRetries (config this) = Some n →
  1 ≤ n →
  let request := {| method := method; url := endpoint; data := body; params := params |} in
  (∀ i, (i < Z.to_nat n)%nat →
     ∃ error, server request i = Rejected error ∧ handleError error = TypeError) →
  makeRequest this server method endpoint body params
  = (Raised (Some TypeError), backoff_schedule request 0 (Z.to_nat n - 1)).
Proof.
  intros Hn Hpos request Hall.
  rewrite (makeRequest_attempts _ _ _ _ _ _ n Hn). fold request.
  rewrite (attempts_run n server request (Z.to_nat n - 1)); [|lia|lia| |right; lia].
  - destruct (Hall (Z.to_nat n - 1)%nat ltac:(lia)) as (error & Herror & Htype).
    rewrite Nat.add_0_l, Herror. unfold settle. by rewrite Htype.
  - intros i Hi. destruct (Hall i ltac:(lia)) as (error & Herror & Htype).
    rewrite Nat.add_0_l, Herror. unfold goes_on. by rewrite Htype.
Qed.

Lemma makeRequest_retries_TypeError_witness :
  let failure := http_failure 400 (JObj [("error", JArr [JObj [("toString", JBool true)]])]) ∅ in
  let request := {| method := POST; url := "/similarity"; data := JNull; params := None |} in
  makeRequest (new_HashubVector (only_apiKey "key")) (always_rejects failure)
    POST "/similarity" JNull None
  = (Raised (Some TypeError),
     [Request request; Sleep 1000; Request request; Sleep 2000; Request request]).
Proof.
  intros failure request.
  apply (makeRequest_retries_TypeError (new_HashubVector (only_apiKey "key"))
           (always_rejects failure) POST "/similarity" JNull None 3
           eq_refl ltac:(lia)).
  intros i Hi. by exists failure.
Defined.

(** ** The operations and the constructor *)

Lemma backoff_schedule_requests_are request from failures :
  requests_are request (backoff_schedule request from failures).
Proof.
  revert from. induction failures as [|k IH]; intros from; simpl;
    repeat constructor. apply IH.
Qed.

Lemma makeRequest_requests_are this server method endpoint body params :
  requests_are
    {| method := method; url := endpoint; data := body; params := params |}
    (makeRequest this server method endpoint body params).2.
Proof.
  destruct (config_maxRetries (config this)) as [n|] eqn:Hn.
  - destruct (Z.le_gt_cases n 0) as [Hnone|Hpos].
    + rewrite makeRequest_without_attempts by (by rewrite Hn). constructor.
    + destruct (makeRequest_run this server method endpoint body params n Hn ltac:(lia))
        as (k & _ & _ & _ & ->). apply backoff_schedule_requests_are.
  - rewrite makeRequest_without_attempts by (by rewrite Hn). constructor.
Qed.

Lemma getModels_trace this server :
  (getModels this server).2 = (makeRequest this server GET "/models" JUndefined None).2.
Proof.
  unfold getModels. destruct (makeRequest _ _ _ _ _ _) as [[response|error] trace];
    [|done]. by destruct (member response "models").
Qed.

(** X10. Each operation talks to its own endpoint only: every request that
    a call issues, the retries included, has the method, the path, the
    body and the query parameters that the operation built at the start. *)
Theorem operations_requests this server :
  (∀ r, requests_are {| method := POST; url := "/vectorize";
                        data := vectorize_body r; params := None |}
          (vectorize this server r).2) ∧
  (∀ r, requests_are {| method := POST; url := "/vectorize-batch";
                        data := vectorizeBatch_body r; params := None |}
          (vectorizeBatch this server r).2) ∧
  (∀ r, requests_are {| method := POST; url := "/similarity";
                        data := similarity_body r; params := None |}
          (similarity this server r).2) ∧
  requests_are {| method := GET; url := "/models"; data := JUndefined; params := None |}
    (getModels this server).2 ∧
  requests_are {| method := GET; url := "/usage"; data := JUndefined; params := None |}
    (getUsage this server).2 ∧
  (∀ from to, requests_are {| method := GET; url := "/usage"; data := JUndefined;
                              params := Some (usage_params from to) |}
                (getDetailedUsage this server from to).2) ∧
  (∀ r, requests_are {| method := POST; url := "/embeddings";
                        data := createEmbedding_body r; params := None |}
          (createEmbedding this server r).2).
Proof.
  rewrite getModels_trace. repeat split; intros; apply makeRequest_requests_are.
Qed.

(** X11. [getDetailedUsage] sends [from] and [to] as query parameters only
    when they are given and not empty, and sends no other parameter. *)
Theorem getDetailedUsage_params from to :
  let sent := usage_params from to in
  (∀ text, sent !! "from" = Some text ↔ from = Some text ∧ text ≠ EmptyString) ∧
  (∀ text, sent !! "to" = Some text ↔ to = Some text ∧ text ≠ EmptyString) ∧
  (∀ key, key ≠ "from" → key ≠ "to" → sent !! key = None).
Proof.
  unfold usage_params.
  destruct from as [[|c f]|], to as [[|d t]|]; simpl;
    repeat split; intros; simplify_map_eq; try done;
    try (by intros [? ?]); try (by split);
    match goal with
    | H : _ ∧ _ |- _ => destruct H as [Heq Hne]; by simplify_eq
    end.
Qed.

(** X12. [getModels] hands out the [models] property of the body of the
    response that ends the call, whatever it is, [undefined] if the body
    has none; when that body is [null] or [undefined] it throws a TypeError
    although the request succeeded. An error of the executor is handed on
    unchanged. *)
Theorem getModels_result this server n :
  config_maxRetries (config this) = Some n →
  let request := {| method := GET; url := "/models"; data := JUndefined; params := None |} in
  (∀ (k : nat) response,
     Z.of_nat k < n →
     (∀ i, (i < k)%nat → retried_failure (server request i)) →
     server request k = Fulfilled response →
     getModels this server =
       (match Axios.data response with
        | JUndefined | JNull => Raised (Some TypeError)
        | JObj props => Returned (default JUndefined (own_property props "models"))
        | _ => Returned JUndefined
        end, backoff_schedule request 0 k)) ∧
  (∀ error, (makeRequest this server GET "/models" JUndefined None).1 = Raised error →
     getModels this server = makeRequest this server GET "/models" JUndefined None).
Proof.
  intros Hn request. split.
  - intros k response Hk Hfirst Hresponse. unfold getModels.
    rewrite (makeRequest_attempts _ _ _ _ _ _ n Hn). fold request.
    rewrite (attempts_run n server request k); [|lia|lia| |left].
    + rewrite Nat.add_0_l, Hresponse. simpl. by destruct (Axios.data response).
    + intros i Hi. by apply retried_failure_goes_on, Hfirst.
    + by rewrite Nat.add_0_l, Hresponse.
  - intros error. unfold getModels.
    destruct (makeRequest _ _ _ _ _ _) as [result trace]. simpl. by intros ->.
Qed.

Lemma getModels_result_witness :
  let server : transport :=
    λ _ _, Fulfilled {| Axios.status := 200;
                        Axios.data := JObj [("models", JArr [JStr "e5_base"])];
                        Axios.headers := ∅ |} in
  getModels (new_HashubVector (only_apiKey "key")) server
  = (Returned (JArr [JStr "e5_base"]),
     [Request {| method := GET; url := "/models"; data := JUndefined; params := None |}]).
Proof.
  intros server.
  apply (proj1 (getModels_result (new_HashubVector (only_apiKey "key")) server 3 eq_refl)
           0%nat {| Axios.status := 200;
                    Axios.data := JObj [("models", JArr [JStr "e5_base"])];
                    Axios.headers := ∅ |} ltac:(lia)); [|reflexivity].
  intros i Hi. lia.
Defined.

(** X13. A client whose configuration sets [maxRetries] to [undefined], to 0
    or to a negative number sends nothing: every operation throws
    [undefined] without a single request. *)
Theorem client_without_attempts cfg server :
  (maxRetries cfg = Own None ∨ ∃ n, maxRetries cfg = Own (Some n) ∧ n ≤ 0) →
  let this := new_HashubVector cfg in
  (∀ r, vectorize this server r = (Raised None, [])) ∧
  (∀ r, vectorizeBatch this server r = (Raised None, [])) ∧
  (∀ r, similarity this server r = (Raised None, [])) ∧
  getModels this server = (Raised None, []) ∧
  getUsage this server = (Raised None, []) ∧
  (∀ from to, getDetailedUsage this server from to = (Raised None, [])) ∧
  (∀ r, createEmbedding this server r = (Raised None, [])).
Proof.
  intros Hretries this.
  assert (∀ method endpoint body params,
            makeRequest this server method endpoint body params = (Raised None, []))
    as Hidle.
  { intros. apply makeRequest_without_attempts. subst this. simpl.
    destruct Hretries as [->|(n & -> & Hn)]; done. }
  unfold getModels. rewrite Hidle. repeat split; intros; apply Hidle.
Qed.

Lemma client_without_attempts_witness :
  vectorize (new_HashubVector (with_maxRetries "key" 0))
    (always_rejects (http_failure 500 JNull ∅))
    {| text := "merhaba"; model := None; chunkSize := JUndefined;
       chunkOverlap := JUndefined |}
  = (Raised None, []).
Proof.
  apply (client_without_attempts (with_maxRetries "key" 0)).
  right. exists 0. by split.
Defined.

(** X14. The headers of the client are its three own ones and the custom
    ones, nothing else. [Content-Type] is [application/json] and
    [User-Agent] is [hashub-vector-js/1.0.0] unless a custom header of that
    name replaces it. *)
Theorem constructor_headers cfg :
  let sent := instance_headers (client (new_HashubVector cfg)) in
  dom sent = dom (extra_headers cfg) ∪ {[ "Authorization"; "Content-Type"; "User-Agent" ]} ∧
  (extra_headers cfg !! "Content-Type" = None →
     sent !! "Content-Type" = Some "application/json") ∧
  (extra_headers cfg !! "User-Agent" = None →
     sent !! "User-Agent" = Some "hashub-vector-js/1.0.0") ∧
  (∀ name value, extra_headers cfg !! name = Some value → sent !! name = Some value).
Proof.
  intros sent. subst sent. simpl. unfold default_headers.
  replace (default ∅ (config_headers (merge_config cfg))) with (extra_headers cfg)
    by (unfold extra_headers; simpl; by destruct (headers cfg) as [|[]]).
  generalize (extra_headers cfg). intros custom.
  repeat split.
  - rewrite dom_union_L, !dom_insert_L, dom_empty_L. set_solver.
  - intros Hnone. rewrite lookup_union_r by done. by simplify_map_eq.
  - intros Hnone. rewrite lookup_union_r by done. by simplify_map_eq.
  - intros name value Hvalue. by rewrite (lookup_union_Some_l _ _ _ _ Hvalue).
Qed.

Lemma constructor_headers_witness :
  instance_headers (client (new_HashubVector (only_apiKey "key"))) !! "Content-Type"
  = Some "application/json".
Proof.
  by apply (proj1 (proj2 (constructor_headers (only_apiKey "key")))).
Defined.

(** ** The example programs *)

(** *** [withRetry] *)

Section WithRetry.

Context {A E : Type} (operation : nat → A + E) (maxRetries baseDelay : Z).

(** The run of the loop when its first [k] invocations throw and the one
    after them ends it, by its value or by being the last one. *)
Lemma withRetry_attempts_run k :
  ∀ remaining attempt,
    Z.of_nat attempt + Z.of_nat remaining = maxRetries →
    (k < remaining)%nat →
    (∀ i, (i < k)%nat → failed (operation (attempt + i)%nat) = true) →
    failed (operation (attempt + k)%nat) = false ∨ S k = remaining →
    withRetry_attempts operation maxRetries baseDelay remaining attempt =
      (ended (operation (attempt + k)%nat), retry_schedule baseDelay attempt k).
Proof.
  induction k as [|k IH]; intros remaining attempt Hguard Hk Hfirst Hlast;
    (destruct remaining as [|remaining]; [lia|]); simpl.
  - rewrite Nat.add_0_r in *.
    destruct (operation attempt) as [value|error]; [done|].
    destruct Hlast as [Hstop|Hlast]; [done|].
    by destruct (Z.eqb_spec (Z.of_nat attempt) (maxRetries - 1)); [|lia].
  - pose proof (Hfirst 0%nat ltac:(lia)) as Hthrew. rewrite Nat.add_0_r in Hthrew.
    destruct (operation attempt) as [value|error]; [done|].
    destruct (Z.eqb_spec (Z.of_nat attempt) (maxRetries - 1)); [lia|].
    rewrite (IH remaining (S attempt)).
    + by rewrite Nat.add_succ_r.
    + lia.
    + lia.
    + intros i Hi. specialize (Hfirst (S i) ltac:(lia)).
      by rewrite Nat.add_succ_r in Hfirst.
    + rewrite Nat.add_succ_r in Hlast. destruct Hlast; [by left | right; lia].
Qed.

(** Some invocation ends the loop. *)
Lemma withRetry_attempts_end :
  ∀ remaining attempt, (0 < remaining)%nat →
    ∃ k, (k < remaining)%nat ∧
         (∀ i, (i < k)%nat → failed (operation (attempt + i)%nat) = true) ∧
         (failed (operation (attempt + k)%nat) = false ∨ S k = remaining).
Proof.
  induction remaining as [|remaining IH]; intros attempt Hpos; [lia|].
  destruct (failed (operation attempt)) eqn:Hthrew.
  - destruct remaining as [|remaining].
    + exists 0%nat. repeat split; [lia | intros; lia | by right].
    + destruct (IH (S attempt) ltac:(lia)) as (k & Hk & Hfirst & Hlast).
      exists (S k). repeat split; [lia| |].
      * intros [|i] Hi; [by rewrite Nat.add_0_r|].
        rewrite Nat.add_succ_r. apply (Hfirst i). lia.
      * rewrite Nat.add_succ_r. destruct Hlast; [by left | right; lia].
  - exists 0%nat. rewrite Nat.add_0_r. repeat split; [lia | intros; lia | by left].
Qed.

End WithRetry.

(** The shape of every run of [withRetry] that is allowed an invocation. *)
Lemma withRetry_run {A E : Type} (operation : nat → A + E) maxRetries baseDelay :
  let m := default 3 maxRetries in
  1 ≤ m →
  ∃ k : nat,
    (k < Z.to_nat m)%nat ∧
    (∀ i, (i < k)%nat → failed (operation i) = true) ∧
    (failed (operation k) = false ∨ S k = Z.to_nat m) ∧
    withRetry operation maxRetries baseDelay =
      (ended (operation k), retry_schedule (default 1000 baseDelay) 0 k).
Proof.
  intros m Hm.
  destruct (withRetry_attempts_end operation (Z.to_nat m) 0%nat ltac:(lia))
    as (k & Hk & Hfirst & Hlast).
  exists k. repeat split; [done..|].
  apply (withRetry_attempts_run operation m _ k); [lia|done..].
Qed.

(** X15. [withRetry] with a positive count (3 when it is left out) invokes
    the operation until an invocation returns or the count is reached,
    whatever the errors are: it makes r <= maxRetries invocations, numbered
    from 0, pauses baseDelay * 2^i after the failed invocation i < r - 1,
    and ends with the value of the last invocation or with the error that
    it threw, in which case r = maxRetries. *)
Theorem withRetry_retries_every_error
    {A E : Type} (operation : nat → A + E) maxRetries baseDelay :
  let m := default 3 maxRetries in
  let b := default 1000 baseDelay in
  1 ≤ m →
  ∃ k : nat,
    (k < Z.to_nat m)%nat ∧
    (∀ i, (i < k)%nat → failed (operation i) = true) ∧
    (withRetry operation maxRetries baseDelay).2 = retry_schedule b 0 k ∧
    match operation k with
    | inl value => (withRetry operation maxRetries baseDelay).1 = Resolved value
    | inr error =>
        (withRetry operation maxRetries baseDelay).1 = Failed error ∧
        S k = Z.to_nat m
    end.
Proof.
  intros m b Hm.
  destruct (withRetry_run operation maxRetries baseDelay Hm)
    as (k & Hk & Hfirst & Hlast & ->).
  exists k. repeat split; [done..|]. simpl.
  destruct (operation k) as [value|error]; [done|].
  split; [done|]. by destruct Hlast.
Qed.

Lemma withRetry_retries_every_error_witness :
  ∃ k : nat,
    (k < 3)%nat ∧
    (withRetry (λ n, if (n <? 2)%nat then inr n else inl tt) None (Some 500)).2 =
      [Invocation 0; Pause 500; Invocation 1; Pause 1000; Invocation 2] ∧
    (withRetry (λ n, if (n <? 2)%nat then inr n else inl tt) None (Some 500)).1 =
      Resolved tt.
Proof.
  destruct (withRetry_retries_every_error
              (λ n, if (n <? 2)%nat then inr n else inl tt) None (Some 500)
              ltac:(simpl; lia)) as (k & Hk & Hfirst & Hsteps & Hend).
  exists k. split; [exact Hk|]. split; reflexivity.
Defined.

(** X16. [withRetry] reaches its last statement,
    [throw new Error('Max retries exceeded')], exactly when the count is
    zero or negative, and then it has not invoked the operation. *)
Theorem withRetry_max_retries_exceeded
    {A E : Type} (operation : nat → A + E) maxRetries baseDelay :
  ((withRetry operation maxRetries baseDelay).1 = MaxRetriesExceeded ↔
   default 3 maxRetries ≤ 0) ∧
  ((withRetry operation maxRetries baseDelay).1 = MaxRetriesExceeded →
   (withRetry operation maxRetries baseDelay).2 = []).
Proof.
  destruct (Z.le_gt_cases (default 3 maxRetries) 0) as [Hnone|Hsome].
  - unfold withRetry. replace (Z.to_nat (default 3 maxRetries)) with 0%nat by lia.
    by repeat split.
  - destruct (withRetry_run operation maxRetries baseDelay ltac:(lia))
      as (k & _ & _ & _ & ->). simpl.
    repeat split; try lia; by destruct (operation k).
Qed.

(** *** [withRetry] around the client *)

Lemma requests_of_retry_schedule calls baseDelay bound from failures :
  (∀ i, (requests_made (calls i) ≤ bound)%nat) →
  (requests_of calls (retry_schedule baseDelay from failures) ≤ S failures * bound)%nat.
Proof.
  intros Hbound. revert from.
  induction failures as [|k IH]; intros from; simpl.
  - specialize (Hbound from). lia.
  - specialize (Hbound from). specialize (IH (S from)). simpl in IH. lia.
Qed.

Lemma requests_of_single_requests calls baseDelay from failures :
  (∀ i, requests_made (calls i) = 1%nat) →
  requests_of calls (retry_schedule baseDelay from failures) = S failures.
Proof.
  intros Hone. revert from.
  induction failures as [|k IH]; intros from; simpl.
  - rewrite Hone. lia.
  - by rewrite Hone, IH.
Qed.

(** A call that the service answers at once with a client error. *)
Lemma makeRequest_client_error this server method endpoint body params n error :
  config_maxRetries (config this) = Some n →
  1 ≤ n →
  let request := {| method := method; url := endpoint; data := body; params := params |} in
  server request 0%nat = Rejected error →
  is_client_error (handleError error) = true →
  makeRequest this server method endpoint body params =
    (Raised (Some (handleError error)), [Request request]).
Proof.
  intros Hn Hpos request Herror Hclient.
  destruct (makeRequest_run this server method endpoint body params n Hn Hpos)
    as (k & Hk & Hfirst & Hlast & ->). fold request in Hfirst, Hlast |- *.
  destruct k as [|k].
  - by rewrite Herror.
  - specialize (Hfirst 0%nat ltac:(lia)). rewrite Herror in Hfirst.
    simpl in Hfirst. by rewrite Hclient in Hfirst.
Qed.

(** X17. [withRetry] around [vectorize], both with a positive count: the
    service receives at most as many requests as the product of the two
    counts; and [withRetry] repeats the calls that the client has given up
    on, so that a service that answers every call with a client error
    receives one request per invocation, [maxRetries] of them, with all the
    pauses of [withRetry] between them, before the last error is thrown. *)
Theorem withRetry_vectorize_requests
    this (world : nat → transport) request maxRetries baseDelay n :
  let m := Z.to_nat (default 3 maxRetries) in
  let run := withRetry_vectorize this world request maxRetries baseDelay in
  let calls := λ i, (vectorize this (world i) request).2 in
  let sent := {| method := POST; url := "/vectorize";
                 data := vectorize_body request; params := None |} in
  config_maxRetries (config this) = Some n →
  1 ≤ n →
  1 ≤ default 3 maxRetries →
  (requests_of calls run.2 ≤ m * Z.to_nat n)%nat ∧
  ((∀ i, ∃ error, world i sent 0%nat = Rejected error ∧
                  is_client_error (handleError error) = true) →
   run.2 = retry_schedule (default 1000 baseDelay) 0 (m - 1) ∧
   requests_of calls run.2 = m ∧
   ∃ error, world (m - 1)%nat sent 0%nat = Rejected error ∧
            run.1 = Failed (Some (handleError error))).
Proof.
  intros m run calls sent Hn Hpos Hm. subst run. unfold withRetry_vectorize.
  destruct (withRetry_run (λ i, settle_call (vectorize this (world i) request))
              maxRetries baseDelay Hm) as (k & Hk & Hfirst & Hlast & ->).
  simpl. split.
  - transitivity (S k * Z.to_nat n)%nat.
    + apply requests_of_retry_schedule. intros i. unfold calls, vectorize.
      destruct (makeRequest_run this (world i) POST "/vectorize"
                  (vectorize_body request) None n Hn Hpos)
        as (r & Hr & _ & _ & ->).
      simpl. rewrite requests_made_backoff_schedule. lia.
    + apply Nat.mul_le_mono_r. fold m in Hk. lia.
  - intros Hrejects.
    assert (∀ i, ∃ error, world i sent 0%nat = Rejected error ∧
              vectorize this (world i) request =
                (Raised (Some (handleError error)), [Request sent])) as Hcalls.
    { intros i. destruct (Hrejects i) as (error & Herror & Hclient).
      exists error. split; [done|].
      by apply (makeRequest_client_error this (world i) POST "/vectorize"
                  (vectorize_body request) None n error). }
    assert (k = (m - 1)%nat) as ->.
    { destruct Hlast as [Hreturned|Hlast]; [|fold m in Hlast; lia].
      destruct (Hcalls k) as (error & _ & Hcall).
      unfold settle_call in Hreturned. by rewrite Hcall in Hreturned. }
    split; [done|]. split.
    + rewrite (requests_of_single_requests calls); [lia|].
      intros i. destruct (Hcalls i) as (error & _ & Hcall).
      unfold calls. by rewrite Hcall.
    + destruct (Hcalls (m - 1)%nat) as (error & Herror & Hcall).
      exists error. split; [done|]. unfold settle_call. by rewrite Hcall.
Qed.

Lemma withRetry_vectorize_requests_witness :
  let this := new_HashubVector (only_apiKey "key") in
  let world := λ _ : nat, always_rejects (http_failure 401 JNull ∅) in
  let request := {| text := "Test retry pattern"; model := Some e5_base;
                    chunkSize := JUndefined; chunkOverlap := JUndefined |} in
  let run := withRetry_vectorize this world request None None in
  run.2 = [Invocation 0; Pause 1000; Invocation 1; Pause 2000; Invocation 2] ∧
  requests_of (λ i, (vectorize this (world i) request).2) run.2 = 3%nat.
Proof.
  intros this world request run.
  destruct (withRetry_vectorize_requests this world request None None 3
              eq_refl ltac:(lia) ltac:(simpl; lia)) as [_ Hall].
  destruct Hall as (Hsteps & Hsent & _).
  - intros i. exists (http_failure 401 JNull ∅). split; reflexivity.
  - split; [exact Hsteps | exact Hsent].
Defined.

(** *** [processLargeDataset] *)

Lemma batches_needed_bounds len batchSize :
  1 ≤ batchSize →
  (Z.of_nat (batches_needed len batchSize) - 1) * batchSize < Z.of_nat len
    ≤ Z.of_nat (batches_needed len batchSize) * batchSize.
Proof.
  intros Hsize. unfold batches_needed.
  pose proof (Z.div_mod (Z.of_nat len + batchSize - 1) batchSize ltac:(lia)) as Hdiv.
  pose proof (Z.mod_pos_bound (Z.of_nat len + batchSize - 1) batchSize ltac:(lia)) as Hmod.
  assert (0 ≤ (Z.of_nat len + batchSize - 1) / batchSize) by (apply Z.div_pos; lia).
  rewrite Z2Nat.id by done. nia.
Qed.

(** The slice that the loop takes at a multiple of a positive batch size. *)
Lemma slice_batch_of texts batchSize (j : nat) :
  1 ≤ batchSize →
  Z.of_nat j * batchSize < Z.of_nat (length texts) →
  slice texts (Z.of_nat j * batchSize) (Z.of_nat j * batchSize + batchSize) =
  batch_of texts batchSize j.
Proof.
  intros Hsize Hstart. unfold slice, batch_of.
  destruct (Z.ltb_spec (Z.of_nat j * batchSize) 0); [lia|].
  destruct (Z.ltb_spec (Z.of_nat j * batchSize + batchSize) 0); [lia|].
  rewrite (Z.min_l (Z.of_nat j * batchSize)) by lia.
  rewrite Z2Nat.inj_mul, Nat2Z.id by lia.
  destruct (Z.le_gt_cases (Z.of_nat j * batchSize + batchSize) (Z.of_nat (length texts))).
  - f_equal. lia.
  - rewrite !take_ge; [done | |]; rewrite length_drop; lia.
Qed.

(** The run of the generator over a positive batch size, from a batch on. *)
Lemma processLargeDataset_from_run this world texts batchSize :
  1 ≤ batchSize →
  ∀ (left fuel first : nat),
    (left ≤ fuel)%nat →
    (first + left)%nat = batches_needed (length texts) batchSize →
    processLargeDataset_from this world texts batchSize fuel
      (Z.of_nat first * batchSize) first =
    Some ((λ j : nat, batch_report this world texts batchSize
                        (Z.of_nat j * batchSize) j) <$> seq first left).
Proof.
  intros Hsize.
  pose proof (batches_needed_bounds (length texts) batchSize Hsize) as Hbounds.
  induction left as [|left IH]; intros fuel first Hfuel Hfirst.
  - destruct fuel; simpl;
      by destruct (Z.ltb_spec (Z.of_nat first * batchSize) (Z.of_nat (length texts)));
        [nia|].
  - destruct fuel as [|fuel]; [lia|]. simpl.
    destruct (Z.ltb_spec (Z.of_nat first * batchSize) (Z.of_nat (length texts)));
      [|nia].
    replace (Z.of_nat first * batchSize + batchSize)
      with (Z.of_nat (S first) * batchSize) by lia.
    by rewrite (IH fuel (S first)) by lia.
Qed.

Lemma processLargeDataset_run this world texts batchSize fuel :
  let size := default 10 batchSize in
  1 ≤ size →
  (batches_needed (length texts) size ≤ fuel)%nat →
  processLargeDataset this world texts batchSize fuel =
    Some ((λ j : nat, batch_report this world texts size (Z.of_nat j * size) j)
            <$> seq 0 (batches_needed (length texts) size)).
Proof.
  intros size Hsize Hfuel. unfold processLargeDataset.
  by apply (processLargeDataset_from_run this world texts size Hsize _ fuel 0%nat).
Qed.

(** The batches of a positive size make up the texts. *)
Lemma batches_concat batchSize :
  1 ≤ batchSize →
  ∀ (n : nat) texts,
    Z.of_nat (length texts) ≤ Z.of_nat n * batchSize →
    concat (batch_of texts batchSize <$> seq 0 n) = texts.
Proof.
  intros Hsize. induction n as [|n IH]; intros texts Hlen.
  - destruct texts; [done | simpl in Hlen; lia].
  - transitivity (take (Z.to_nat batchSize) texts ++ drop (Z.to_nat batchSize) texts);
      [|apply take_drop].
    rewrite <- (IH (drop (Z.to_nat batchSize) texts)) by (rewrite length_drop; lia).
    rewrite <- cons_seq, fmap_cons. simpl. f_equal.
    f_equal. rewrite <- fmap_S_seq, <- list_fmap_compose.
    apply list_fmap_ext. intros _ j _. unfold batch_of. simpl.
    by rewrite drop_drop.
Qed.

Lemma batch_report_indices this world texts batchSize (j : nat) :
  1 ≤ batchSize →
  let report := (batch_report this world texts batchSize
                   (Z.of_nat j * batchSize) j).1 in
  batchIndex report = Num (Z.of_nat j) ∧
  startIndex report = Z.of_nat j * batchSize ∧
  endIndex report =
    Z.min (Z.of_nat j * batchSize + batchSize - 1) (Z.of_nat (length texts) - 1).
Proof.
  intros Hsize. unfold batch_report. simpl.
  assert (floor_quotient (Z.of_nat j * batchSize) batchSize = Num (Z.of_nat j)) as Hindex.
  { unfold floor_quotient.
    destruct (Z.eqb_spec batchSize 0); [lia|].
    destruct (Z.ltb_spec batchSize 0); [lia|].
    rewrite andb_false_r. f_equal. apply Z.div_mul. lia. }
  destruct (vectorizeBatch _ _ _).1 as [response|caught]; [|done].
  by destruct (member response "count"), (member response "totalTokens"),
    (member response "vectors").
Qed.

(** X18. Over a positive batch size (10 when it is left out),
    [processLargeDataset] ends, whatever the service does, after
    ceil(length / batchSize) reports, none for no texts; the report of rank
    j has [batchIndex] j and covers the indices j * batchSize to
    min((j + 1) * batchSize, length) - 1, so that the ranges of the reports
    follow one another from 0 to length - 1 and none is empty. *)
Theorem processLargeDataset_reports this world texts batchSize fuel :
  let size := default 10 batchSize in
  let needed := batches_needed (length texts) size in
  1 ≤ size →
  (needed ≤ fuel)%nat →
  ∃ reports,
    processLargeDataset this world texts batchSize fuel = Some reports ∧
    length reports = needed ∧
    (texts = [] → reports = []) ∧
    ∀ (j : nat) report trace,
      reports !! j = Some (report, trace) →
      batchIndex report = Num (Z.of_nat j) ∧
      startIndex report = Z.of_nat j * size ∧
      endIndex report =
        Z.min ((Z.of_nat j + 1) * size) (Z.of_nat (length texts)) - 1 ∧
      startIndex report ≤ endIndex report ∧
      (S j = needed ↔ endIndex report = Z.of_nat (length texts) - 1).
Proof.
  intros size needed Hsize Hfuel.
  rewrite (processLargeDataset_run this world texts batchSize fuel Hsize Hfuel).
  fold size needed.
  pose proof (batches_needed_bounds (length texts) size Hsize) as Hbounds.
  fold needed in Hbounds.
  eexists. split; [done|]. split; [by rewrite length_fmap, length_seq|]. split.
  - intros ->. simpl in Hbounds. by replace needed with 0%nat by nia.
  - intros j report trace Hj.
    rewrite list_lookup_fmap in Hj.
    destruct (seq 0 needed !! j) as [j'|] eqn:Hseq; [|done].
    apply lookup_seq in Hseq as [-> Hlt]. simpl in Hj.
    destruct (batch_report_indices this world texts size j Hsize)
      as (Hindex & Hstart & Hend).
    assert (batch_report this world texts size (Z.of_nat j * size) j =
            (report, trace)) as Hpair by congruence.
    rewrite Hpair in Hindex, Hstart, Hend. simpl in Hindex, Hstart, Hend.
    rewrite Hindex, Hstart, Hend. repeat split; try nia.
Qed.

Lemma processLargeDataset_reports_witness :
  ∃ reports,
    processLargeDataset (new_HashubVector (only_apiKey "key"))
      (λ _, always_rejects (http_failure 401 JNull ∅))
      ["a"; "b"; "c"] (Some 2) 2 = Some reports ∧
    length reports = 2%nat.
Proof.
  destruct (processLargeDataset_reports (new_HashubVector (only_apiKey "key"))
              (λ _, always_rejects (http_failure 401 JNull ∅))
              ["a"; "b"; "c"] (Some 2) 2 ltac:(simpl; lia) ltac:(vm_compute; lia))
    as (reports & Hrun & Hlength & _).
  exists reports. split; [exact Hrun | exact Hlength].
Defined.

Lemma batch_report_call this world texts batchSize (j : nat) :
  1 ≤ batchSize →
  Z.of_nat j * batchSize < Z.of_nat (length texts) →
  (batch_report this world texts batchSize (Z.of_nat j * batchSize) j).2 =
  (vectorizeBatch this (world j) (batch_request (batch_of texts batchSize j))).2.
Proof.
  intros Hsize Hstart. unfold batch_report. simpl.
  by rewrite slice_batch_of.
Qed.

(** X19. Over a positive batch size, the call of rank j sends the texts of
    indices j * batchSize to min((j + 1) * batchSize, length) - 1 and no
    others, with the model e5_small, in every request that it makes; every
    batch holds between 1 and batchSize texts, and the batches, put end to
    end, are the texts. *)
Theorem processLargeDataset_batches this world texts batchSize fuel :
  let size := default 10 batchSize in
  let needed := batches_needed (length texts) size in
  1 ≤ size →
  (needed ≤ fuel)%nat →
  ∃ reports,
    processLargeDataset this world texts batchSize fuel = Some reports ∧
    concat (batch_of texts size <$> seq 0 needed) = texts ∧
    ∀ (j : nat) report trace,
      reports !! j = Some (report, trace) →
      let batch := batch_of texts size j in
      trace = (vectorizeBatch this (world j) (batch_request batch)).2 ∧
      requests_carry
        (JObj [("texts", JArr (JStr <$> batch)); ("model", JStr "e5_small");
               ("chunk_size", JUndefined); ("chunk_overlap", JUndefined)]) trace ∧
      (1 ≤ length batch ≤ Z.to_nat size)%nat ∧
      ∀ (i : nat) text,
        batch !! i = Some text ↔
        (i < Z.to_nat size)%nat ∧ texts !! (j * Z.to_nat size + i)%nat = Some text.
Proof.
  intros size needed Hsize Hfuel.
  rewrite (processLargeDataset_run this world texts batchSize fuel Hsize Hfuel).
  fold size needed.
  pose proof (batches_needed_bounds (length texts) size Hsize) as Hbounds.
  fold needed in Hbounds.
  eexists. split; [done|]. split.
  - apply batches_concat; [done | lia].
  - intros j report trace Hj batch.
    rewrite list_lookup_fmap in Hj.
    destruct (seq 0 needed !! j) as [j'|] eqn:Hseq; [|done].
    apply lookup_seq in Hseq as [-> Hlt]. simpl in Hj.
    assert (Z.of_nat j * size < Z.of_nat (length texts)) as Hstart by nia.
    assert (trace = (vectorizeBatch this (world j) (batch_request batch)).2) as ->.
    { unfold batch.
      rewrite <- (batch_report_call this world texts size j Hsize Hstart).
      assert (batch_report this world texts size (Z.of_nat j * size) j =
              (report, trace)) as Hpair by congruence.
      by rewrite Hpair. }
    split; [done|]. split; [|split].
    + apply (makeRequest_requests_carry this (world j) POST "/vectorize-batch"
               (vectorizeBatch_body (batch_request batch)) None).
    + unfold batch, batch_of. rewrite length_take, length_drop. nia.
    + intros i text. unfold batch, batch_of. split.
      * intros Hi. pose proof (lookup_lt_Some _ _ _ Hi) as Hlt'.
        rewrite length_take in Hlt'.
        rewrite lookup_take_lt, lookup_drop in Hi by lia. split; [lia | done].
      * intros [Hi Htext]. by rewrite lookup_take_lt, lookup_drop by lia.
Qed.

Lemma processLargeDataset_batches_witness :
  concat (batch_of ["a"; "b"; "c"] 2 <$> seq 0 2) = ["a"; "b"; "c"].
Proof.
  destruct (processLargeDataset_batches (new_HashubVector (only_apiKey "key"))
              (λ _, always_rejects (http_failure 401 JNull ∅))
              ["a"; "b"; "c"] (Some 2) 2 ltac:(simpl; lia) ltac:(vm_compute; lia))
    as (reports & _ & Hconcat & _).
  exact Hconcat.
Defined.

(** X20. Over a batch size that is zero or negative, [processLargeDataset]
    ends at once for no texts, without a report, and for any texts at all
    its loop never ends. *)
Theorem processLargeDataset_without_progress this world texts batchSize fuel :
  default 10 batchSize ≤ 0 →
  processLargeDataset this world texts batchSize fuel =
    match texts with
    | [] => Some []
    | _ :: _ => None
    end.
Proof.
  intros Hsize. unfold processLargeDataset.
  generalize (default 10 batchSize) Hsize. clear Hsize. intros size Hsize.
  destruct texts as [|first texts]; [by destruct fuel|].
  assert (∀ (i : Z) (call : nat), i ≤ 0 →
            processLargeDataset_from this world (first :: texts) size fuel i call = None)
    as Hloop; [|by apply Hloop].
  induction fuel as [|fuel IH]; intros i call Hi;
    unfold processLargeDataset_from; fold processLargeDataset_from;
    (destruct (Z.ltb_spec i (Z.of_nat (length (first :: texts))));
       [|simpl in *; lia]);
    [done|].
  by rewrite IH by lia.
Qed.

Lemma processLargeDataset_without_progress_witness :
  processLargeDataset (new_HashubVector (only_apiKey "key"))
    (λ _, always_rejects (http_failure 401 JNull ∅)) ["a"] (Some 0) 1000 = None.
Proof.
  apply (processLargeDataset_without_progress
           (new_HashubVector (only_apiKey "key"))
           (λ _, always_rejects (http_failure 401 JNull ∅)) ["a"] (Some 0) 1000).
  simpl. lia.
Defined.

(** X21. Over a positive batch size, a call that fails costs its batch and
    nothing else: the report of rank j has no [error] exactly when the call
    of rank j returned a body other than [undefined] and [null], and then
    it carries the [count], [totalTokens] and [vectors] of that body;
    otherwise it counts nothing, no tokens and no vectors, and its [error]
    is the message of the error of the client. Either way the generator
    goes on to the next batch. *)
Theorem processLargeDataset_failed_batches this world texts batchSize fuel :
  let size := default 10 batchSize in
  let needed := batches_needed (length texts) size in
  1 ≤ size →
  (needed ≤ fuel)%nat →
  ∃ reports,
    processLargeDataset this world texts batchSize fuel = Some reports ∧
    ∀ j : nat, (j < needed)%nat →
      ∃ report trace,
        reports !! j = Some (report, trace) ∧
        match (vectorizeBatch this (world j)
                 (batch_request (batch_of texts size j))).1 with
        | Returned response =>
            match response with
            | JUndefined | JNull =>
                error report = TypeErrorMessage ∧
                count report = JNum (Num 0) ∧ tokens report = JNum (Num 0) ∧
                vectors report = JArr []
            | _ =>
                error report = NoError ∧
                count report = get response "count" ∧
                tokens report = get response "totalTokens" ∧
                vectors report = get response "vectors"
            end
        | Raised caught =>
            error report ≠ NoError ∧
            error report = caught_message caught ∧
            count report = JNum (Num 0) ∧ tokens report = JNum (Num 0) ∧
            vectors report = JArr []
        end.
Proof.
  intros size needed Hsize Hfuel.
  rewrite (processLargeDataset_run this world texts batchSize fuel Hsize Hfuel).
  fold size needed.
  pose proof (batches_needed_bounds (length texts) size Hsize) as Hbounds.
  fold needed in Hbounds.
  eexists. split; [done|]. intros j Hj.
  assert (Z.of_nat j * size < Z.of_nat (length texts)) as Hstart by nia.
  exists (batch_report this world texts size (Z.of_nat j * size) j).1,
         (batch_report this world texts size (Z.of_nat j * size) j).2.
  split.
  - rewrite list_lookup_fmap, lookup_seq_lt by done.
    change (Some (batch_report this world texts size (Z.of_nat j * size) j) =
            Some ((batch_report this world texts size (Z.of_nat j * size) j).1,
                  (batch_report this world texts size (Z.of_nat j * size) j).2)).
    by rewrite <- surjective_pairing.
  - unfold batch_report. simpl. rewrite slice_batch_of by done.
    fold (batch_request (batch_of texts size j)).
    destruct (vectorizeBatch _ _ _).1 as [response|caught].
    + by destruct response.
    + by destruct caught as [[e|]|].
Qed.

Lemma processLargeDataset_failed_batches_witness :
  ∃ reports,
    processLargeDataset (new_HashubVector (only_apiKey "key"))
      (λ _, always_rejects (http_failure 401 (JObj [("message", JStr "bad key")]) ∅))
      ["a"; "b"; "c"] (Some 2) 2 = Some reports ∧
    (error <$> (fst <$> reports)) = [ErrorMessage "bad key"; ErrorMessage "bad key"].
Proof.
  destruct (processLargeDataset_failed_batches
              (new_HashubVector (only_apiKey "key"))
              (λ _, always_rejects
                      (http_failure 401 (JObj [("message", JStr "bad key")]) ∅))
              ["a"; "b"; "c"] (Some 2) 2 ltac:(simpl; lia) ltac:(vm_compute; lia))
    as (reports & Hrun & _).
  exists reports. split; [exact Hrun|].
  vm_compute in Hrun. injection Hrun as <-. reflexivity.
Defined.

(** *** [withFallback] *)

Lemma requests_made_app trace trace' :
  requests_made (trace ++ trace') = (requests_made trace + requests_made trace')%nat.
Proof.
  induction trace as [|[request|ms] trace IH]; simpl; [done|by rewrite IH|done].
Qed.

Lemma model_name_truthy m : js_or (optional_model (Some m)) (JStr "e5_base") = JStr (model_name m).
Proof. by destruct m. Qed.

(** X22. [withFallback] with a client of a positive count sends at most
    twice that count of requests, and it falls back whatever the error of
    the first call is: when the service answers both calls with client
    errors, it receives two requests, the first with the primary model and
    the second with the fallback model, and the error of the second call is
    the one thrown. *)
Theorem withFallback_falls_back_on_any_error
    this (first second : transport) primaryModel fallbackModel content n :
  let run := withFallback this first second primaryModel fallbackModel content in
  let sent (m : EmbeddingModel) :=
    {| method := POST; url := "/vectorize";
       data := JObj [("text", JStr content); ("model", JStr (model_name m));
                     ("chunk_size", JUndefined); ("chunk_overlap", JUndefined)];
       params := None |} in
  config_maxRetries (config this) = Some n →
  1 ≤ n →
  (requests_made run.2 ≤ 2 * Z.to_nat n)%nat ∧
  ∀ error error',
    first (sent primaryModel) 0%nat = Rejected error →
    is_client_error (handleError error) = true →
    second (sent fallbackModel) 0%nat = Rejected error' →
    is_client_error (handleError error') = true →
    run = (Raised (Some (handleError error')),
           [Request (sent primaryModel); Request (sent fallbackModel)]).
Proof.
  intros run sent Hn Hpos. subst run. unfold withFallback, vectorize, vectorize_body.
  cbn [text model chunkSize chunkOverlap]. rewrite !model_name_truthy.
  fold (sent primaryModel) (sent fallbackModel).
  split.
  - destruct (makeRequest_run this first POST "/vectorize"
                (data (sent primaryModel)) None n Hn Hpos)
      as (k & Hk & _ & _ & Hrun).
    destruct (makeRequest_run this second POST "/vectorize"
                (data (sent fallbackModel)) None n Hn Hpos)
      as (k' & Hk' & _ & _ & Hrun').
    simpl in Hrun, Hrun'. rewrite Hrun.
    destruct (settle _); simpl.
    + rewrite requests_made_backoff_schedule. lia.
    + rewrite Hrun'. simpl.
      rewrite requests_made_app, !requests_made_backoff_schedule. lia.
  - intros error error' Herror Hclient Herror' Hclient'.
    pose proof (makeRequest_client_error this first POST "/vectorize"
                  (data (sent primaryModel)) None n error Hn Hpos Herror Hclient)
      as Hrun.
    pose proof (makeRequest_client_error this second POST "/vectorize"
                  (data (sent fallbackModel)) None n error' Hn Hpos Herror' Hclient')
      as Hrun'.
    simpl in Hrun, Hrun'. by rewrite Hrun, Hrun'.
Qed.

Lemma withFallback_falls_back_on_any_error_witness :
  (withFallback (new_HashubVector (only_apiKey "key"))
     (always_rejects (http_failure 401 JNull ∅))
     (always_rejects (http_failure 402 JNull ∅))
     gte_base e5_base "Test fallback pattern").1 =
  Raised (Some (handleError (http_failure 402 JNull ∅))).
Proof.
  destruct (withFallback_falls_back_on_any_error
              (new_HashubVector (only_apiKey "key"))
              (always_rejects (http_failure 401 JNull ∅))
              (always_rejects (http_failure 402 JNull ∅))
              gte_base e5_base "Test fallback pattern" 3 eq_refl ltac:(lia))
    as [_ Hboth].
  by rewrite (Hboth (http_failure 401 JNull ∅) (http_failure 402 JNull ∅)
                eq_refl eq_refl eq_refl eq_refl).
Defined.
